(** * db-mixin: the entity access mixin of PaaS-Shack

    A shallow embedding of the two source files of the repository,
    [src/db.mixin.js] and [src/unnamed/part_000], and the properties of
    the mixin factory, its permission helper [validateHas], its id codec
    [encodeID]/[decodeID] and its lifecycle hooks [created]/[started]. *)

From Stdlib Require Import ZArith Lia Ascii String.
From Stdlib.Strings Require Import Byte.
From stdpp Require Import base gmap strings list pretty.

Set Warnings "-register-all".
Local Open Scope string_scope.
Local Open Scope list_scope.

(** ** A small JavaScript core

    Values are primitives or references into a store of objects, so that
    "the very same object, mutated in place" can be said.  A computation
    threads the store and the log of broker calls and ends by returning a
    value or by throwing. *)
Module JS.

Definition loc := nat.

Inductive value :=
| VUndefined
| VNull
| VBool (b : bool)
| VNum (n : Z)
| VStr (s : string)
| VObj (l : loc).

(** [!v] is [negb (truthy v)]. *)
Definition truthy (v : value) : bool :=
  match v with
  | VUndefined | VNull => false
  | VBool b => b
  | VNum n => negb (n =? 0)%Z
  | VStr s => negb (String.eqb s "")
  | VObj _ => true
  end.

(** String conversion as a template literal performs it. *)
Definition to_string (v : value) : string :=
  match v with
  | VUndefined => "undefined"
  | VNull => "null"
  | VBool true => "true"
  | VBool false => "false"
  | VNum n => pretty n
  | VStr s => s
  | VObj _ => "[object Object]"
  end.

(** Payload attached to an error: a literal object or array built at
    the throw site. *)
Inductive data :=
| DVal (v : value)
| DObj (fields : list (string * data))
| DArr (items : list data).

Inductive exn :=
| Builtin (name message : string)
| ClientError (message : string) (code : Z) (type : string) (d : data)
| Rejection (reason : value).

Definition TypeError (message : string) : exn := Builtin "TypeError" message.
Definition ReferenceError (x : string) : exn :=
  Builtin "ReferenceError" (x +:+ " is not defined").

Inductive completion (A : Type) :=
| Return (a : A)
| Throw (e : exn).
Arguments Return {A} a.
Arguments Throw {A} e.

(** The store of objects (own properties only) and the log of the
    calls made through [ctx.call], oldest first. *)
Record world := World {
  heap : gmap loc (gmap string value);
  calls : list (string * value)
}.

(** State passing with exceptions: what was written before a throw
    stays written. *)
Definition ST (S A : Type) : Type := S → completion A * S.

#[global] Instance ST_ret {S} : MRet (ST S) := λ A a w, (Return a, w).
#[global] Instance ST_bind {S} : MBind (ST S) := λ A B f m w,
  match m w with
  | (Return a, w') => f a w'
  | (Throw e, w') => (Throw e, w')
  end.

Definition throw {S A} (e : exn) : ST S A := λ w, (Throw e, w).
Definition modify {S} (f : S → S) : ST S () := λ w, (Return (), f w).

Abbreviation M := (ST world).

(** [o[k]] read from a store: own properties only, [undefined] for a
    missing key or a primitive, a [TypeError] on [null]/[undefined]. *)
Definition read (h : gmap loc (gmap string value)) (o : value) (k : string)
    : completion value :=
  match o with
  | VUndefined | VNull =>
      Throw (TypeError ("Cannot read properties of " +:+ to_string o))
  | VObj l => Return (default VUndefined (h !! l ≫= λ f : gmap string value, f !! k))
  | _ => Return VUndefined
  end.

Definition get_prop (o : value) (k : string) : M value :=
  λ w, (read (heap w) o k, w).

(** [typeof o] for a primitive. *)
Definition type_of (o : value) : string :=
  match o with
  | VUndefined => "undefined"
  | VNull | VObj _ => "object"
  | VBool _ => "boolean"
  | VNum _ => "number"
  | VStr _ => "string"
  end.

(** [o[k] = v], in strict mode. The objects of the store are plain
    extensible objects whose prototype is [Object.prototype].

    On [null] and [undefined] the assignment is a [TypeError]. A key
    other than [__proto__] is written as an own property of an object
    and is a [TypeError] on a primitive. So is [__proto__] written on
    an object that has it as a property of its own. Otherwise the key
    [__proto__] reaches the accessor that [Object.prototype] holds,
    and no own property is written: the setter returns at once when
    the receiver is a primitive or the value is neither an object nor
    [null], refuses to make an object its own prototype, and else
    changes the prototype of the receiver, which is no property of it
    and no part of the store. *)
Definition set_prop (o : value) (k : string) (v : value) : M () := λ w,
  match o with
  | VUndefined | VNull =>
      (Throw (TypeError ("Cannot set properties of " +:+ to_string o
                           +:+ " (setting '" +:+ k +:+ "')")), w)
  | VObj l =>
      let own := default ∅ (heap w !! l) in
      let written := World (<[l := <[k := v]> own]> (heap w)) (calls w) in
      if negb (String.eqb k "__proto__") then (Return (), written)
      else
        match own !! k with
        | Some _ => (Return (), written)
        | None =>
            match v with
            | VObj p =>
                if Nat.eqb p l then (Throw (TypeError "Cyclic __proto__ value"), w)
                else (Return (), w)
            | _ => (Return (), w)
            end
        end
  | _ =>
      if String.eqb k "__proto__" then (Return (), w)
      else (Throw (TypeError ("Cannot create property '" +:+ k +:+ "' on "
                                +:+ type_of o +:+ " '" +:+ to_string o +:+ "'")), w)
  end.

(** The classes an unbound identifier can resolve to on the global
    object. *)
Inductive class :=
| BuiltinClass (name : string)
| MoleculerClientErrorClass.

(** [new C(message, code, type, data)].  Moleculer's client error
    defaults a missing code to 400. *)
Definition construct (C : class) (message : string) (code : Z)
    (type : string) (d : data) : exn :=
  match C with
  | BuiltinClass name => Builtin name message
  | MoleculerClientErrorClass =>
      ClientError message (if (code =? 0)%Z then 400%Z else code) type d
  end.

End JS.

Import JS.

(** ** The methods shared by both source files

    [validateHas], [encodeID], [decodeID] and [created] are the same text
    in [src/db.mixin.js] (lines 97-138) and [src/unnamed/part_000]
    (lines 165-206). *)
Module Methods.

(** The identifiers the module binds at its top level.  Neither file
    adds any other top-level binding that a method body refers to. *)
Definition module_bindings : list string :=
  ["_"; "crypto"; "path"; "mkdir"; "DbService"; "HashIds"; "ObjectID";
   "TESTING"; "FIELDS"; "SCOPE"; "DSCOPE"; "ACTIONS"].

(** The parameters and locals of [validateHas]. *)
Definition validateHas_locals : list string :=
  ["caller"; "key"; "query"; "ctx"; "params"; "res"].

Section WithRuntime.

(** What the global object holds, and how the service broker answers
    [ctx.call(action, {id})]. *)
Variable globals : gmap string class.
Variable broker : string → value → completion value.

(** An identifier bound neither locally nor by the module is looked
    up on the global object. *)
Definition resolve (x : string) : M class := λ w,
  match globals !! x with
  | Some C => (Return C, w)
  | None => (Throw (ReferenceError x), w)
  end.

(** [await ctx.call(caller, { id })]: the call is logged and the
    broker's answer returned or thrown. The callee is handed a fresh
    object holding the id, so the store is as before. *)
Definition ctx_call (ctx : value) (caller : string) (id : value) : M value := λ w,
  match ctx with
  | VObj _ => (broker caller id, World (heap w) (calls w ++ [(caller, id)]))
  | _ => (Throw (TypeError "ctx.call is not a function"), w)
  end.

Definition validateHas (caller key : string) (query ctx params : value) : M value :=
  if negb (truthy ctx) then mret query
  else
    pk ← get_prop params key;
    if truthy pk then
      id ← get_prop params key;
      res ← ctx_call ctx caller id;
      if truthy res then
        v ← get_prop params key;
        _ ← set_prop query key v;
        mret query
      else
        C ← resolve "MoleculerClientError";
        shown ← get_prop params key;
        denied ← get_prop params key;
        throw (construct C
                 ("You have no right for the " +:+ key +:+ " '"
                    +:+ to_string shown +:+ "'")
                 403 "ERR_NO_PERMISSION"
                 (DObj [("domain", DVal denied)]))
    else
      action ← get_prop ctx "action";
      schema ← get_prop action "params";
      rule ← get_prop schema key;
      if truthy rule then
        action' ← get_prop ctx "action";
        schema' ← get_prop action' "params";
        rule' ← get_prop schema' key;
        optional ← get_prop rule' "optional";
        if negb (truthy optional) then
          C ← resolve "MoleculerClientError";
          throw (construct C (key +:+ " is required") 422 "VALIDATION_ERROR"
                   (DArr [DObj [("type", DVal (VStr "required"));
                                ("field", DVal (VStr key))]]))
        else mret VUndefined
      else mret VUndefined.

End WithRuntime.

(** *** The id codec *)

(** What [encodeID] can be handed: an [ObjectID] instance (its bytes),
    a string, a number, or [null]/[undefined]. *)
Inductive id_value :=
| Oid (bytes : list byte)
| IdStr (s : string)
| IdNum (n : Z)
| IdNullish.

Definition hex_digit (d : N) : ascii :=
  match d with
  | 0 => "0" | 1 => "1" | 2 => "2" | 3 => "3" | 4 => "4" | 5 => "5"
  | 6 => "6" | 7 => "7" | 8 => "8" | 9 => "9" | 10 => "a" | 11 => "b"
  | 12 => "c" | 13 => "d" | 14 => "e" | _ => "f"
  end%N%char.

(** [ObjectID.prototype.toHexString]: two lower-case digits per byte. *)
Fixpoint toHexString (bytes : list byte) : string :=
  match bytes with
  | [] => ""
  | b :: rest =>
      String (hex_digit (Byte.to_N b `div` 16)%N)
        (String (hex_digit (Byte.to_N b `mod` 16)%N) (toHexString rest))
  end.

(** [id.toString()] *)
Definition toString (id : id_value) : string :=
  match id with
  | Oid bytes => toHexString bytes
  | IdStr s => s
  | IdNum n => pretty n
  | IdNullish => "undefined"
  end.

Definition is_lower_hex_digit (c : ascii) : bool :=
  let n := N_of_ascii c in
  ((48 <=? n) && (n <=? 57) || (97 <=? n) && (n <=? 102))%N.

Fixpoint is_lower_hex (s : string) : bool :=
  match s with
  | EmptyString => true
  | String c rest => is_lower_hex_digit c && is_lower_hex rest
  end.

Definition is_hex_digit (c : ascii) : bool :=
  let n := N_of_ascii c in
  ((48 <=? n) && (n <=? 57) || (65 <=? n) && (n <=? 70) || (97 <=? n) && (n <=? 102))%N.

Fixpoint is_hex (s : string) : bool :=
  match s with
  | EmptyString => true
  | String c rest => is_hex_digit c && is_hex rest
  end.

(** The driver's [ObjectID.isValid]: numbers, instances, strings of 12
    characters and strings of 24 hexadecimal digits. *)
Definition ObjectID_isValid (id : id_value) : bool :=
  match id with
  | IdNullish => false
  | IdNum _ => true
  | IdStr s =>
      (String.length s =? 12)%nat || (String.length s =? 24)%nat && is_hex s
  | Oid _ => true
  end.

(** The two library objects the codec is built on: the driver's
    [ObjectID.isValid] and a [HashIds] instance created from the salt.
    Both libraries are dependencies of the repository, not part of it. *)
Record hashids := {
  encodeHex : id_value → completion string;
  decodeHex : string → completion string
}.

Section Codec.

Variable isValid : id_value → bool.
Variable HashIds : option string → hashids.

Definition encodeID (h : hashids) (id : id_value) : completion string :=
  let id := if isValid id then IdStr (toString id) else id in
  encodeHex h id.

Definition decodeID (h : hashids) (id : string) : completion string :=
  decodeHex h id.

(** [decodeID(encodeID(id))] *)
Definition decode_encoded (h : hashids) (id : id_value) : completion string :=
  match encodeID h id with
  | Return external => decodeID h external
  | Throw e => Throw e
  end.

(** The contract of the hashids library on hexadecimal input: what
    [encodeHex] produces from a non-empty lower-case hex string,
    [decodeHex] turns back into that string, whatever the salt. *)
Definition hex_reversible : Prop :=
  ∀ salt s, s ≠ "" → is_lower_hex s = true →
    ∃ external, encodeHex (HashIds salt) (IdStr s) = Return external
                ∧ decodeHex (HashIds salt) external = Return s.

(** The driver accepts its own instances and their 24-digit form. *)
Definition accepts_object_ids : Prop :=
  ∀ bytes, length bytes = 12%nat →
    isValid (Oid bytes) = true ∧ isValid (IdStr (toHexString bytes)) = true.

End Codec.

(** *** The [created] hook *)

Definition env_truthy (env : gmap string string) (x : string) : bool :=
  match env !! x with
  | Some s => negb (String.eqb s "")
  | None => false
  end.

(** How a hook ends: normally, or through [this.broker.fatal], which
    logs the message and exits the process. *)
Inductive hook_end :=
| Completed
| Fatal (message : string).

Definition created (env : gmap string string) : hook_end :=
  if negb (env_truthy env "HASHID_SALT")
  then Fatal "Environment variable 'HASHID_SALT' must be configured!"
  else Completed.

End Methods.

(** ** The hashids library

    [hashids/cjs] is a dependency of the repository, not part of it.
    This is its version 2 as the mixin uses it: an instance built from
    a salt alone, so with the default alphabet and separators and no
    minimum length (the padding with guards never runs), encoding
    numbers below [2 ^ 53]. Characters are bytes; the names are the
    library's. *)
Module Hashids.

Definition chars (s : string) : list ascii := list_ascii_of_string s.
Definition join (l : list ascii) : string := string_of_list_ascii l.
Definition codePoint (c : ascii) : N := N_of_ascii c.
Definition nul : ascii := Ascii.zero.

(** [keepUnique], [withoutChars], [onlyChars] *)
Definition keepUnique (content : list ascii) : list ascii := remove_dups content.
Definition withoutChars (cs exclude : list ascii) : list ascii :=
  filter (λ c, c ∉ exclude) cs.
Definition onlyChars (cs keep : list ascii) : list ascii :=
  filter (λ c, c ∈ keep) cs.

(** One exchange of the shuffle: [a = t[i]; b = t[j]; t[j] = a; t[i] = b]. *)
Definition swap (t : list ascii) (i j : nat) : list ascii :=
  match t !! i, t !! j with
  | Some a, Some b => <[i := b]> (<[j := a]> t)
  | _, _ => t
  end.

(** The loop of [shuffle], from index [i] down to 1. *)
Fixpoint shuffle_from (salt : list ascii) (i : nat) (v p : N) (t : list ascii)
    : list ascii :=
  match i with
  | O => t
  | S i' =>
      let v := (v `mod` N.of_nat (length salt))%N in
      let integer := codePoint (nth (N.to_nat v) salt nul) in
      let p := (p + integer)%N in
      let j := ((integer + v + p) `mod` N.of_nat i)%N in
      shuffle_from salt i' (v + 1)%N p (swap t i (N.to_nat j))
  end.

Definition shuffle (alphabetChars saltChars : list ascii) : list ascii :=
  match saltChars with
  | [] => alphabetChars
  | _ => shuffle_from saltChars (length alphabetChars - 1) 0 0 alphabetChars
  end.

(** The [do ... while (value > 0)] of [toAlphabet]; the fuel bounds
    the number of digits. *)
Fixpoint toAlphabet_from (fuel : nat) (value : N) (alphabetChars id : list ascii)
    : list ascii :=
  match fuel with
  | O => id
  | S fuel =>
      let n := N.of_nat (length alphabetChars) in
      let id := nth (N.to_nat (value `mod` n)%N) alphabetChars nul :: id in
      let value := (value `div` n)%N in
      if (0 <? value)%N then toAlphabet_from fuel value alphabetChars id else id
  end.

Definition toAlphabet (input : N) (alphabetChars : list ascii) : list ascii :=
  toAlphabet_from (S (N.to_nat (N.log2 input))) input alphabetChars [].

Fixpoint index_of (c : ascii) (l : list ascii) : option nat :=
  match l with
  | [] => None
  | x :: rest => if Ascii.eqb c x then Some O else S <$> index_of c rest
  end.

Definition fromAlphabet (inputChars alphabetChars : list ascii) : option N :=
  foldl (λ carry item,
           c ← carry; i ← index_of item alphabetChars;
           Some (c * N.of_nat (length alphabetChars) + N.of_nat i)%N)
        (Some 0%N) inputChars.

Record t := {
  salt : list ascii;
  alphabet : list ascii;
  seps : list ascii;
  guards : list ascii
}.

Definition ceil_div (a b : nat) : nat := (a + b - 1) / b.

(** The constructor, for a minimum length of 0. *)
Definition create (saltS alphabetS sepsS : string) : t :=
  let saltChars := chars saltS in
  let uniqueAlphabet := keepUnique (chars alphabetS) in
  let alphabet := withoutChars uniqueAlphabet (chars sepsS) in
  let filteredSeps := onlyChars (chars sepsS) uniqueAlphabet in
  let seps := shuffle filteredSeps saltChars in
  let '(seps, alphabet) :=
    if (length seps =? 0)%nat || (7 * length seps <? 2 * length alphabet)%nat then
      let sepsLength := ceil_div (2 * length alphabet) 7 in
      if (length seps <? sepsLength)%nat then
        let diff := (sepsLength - length seps)%nat in
        (seps ++ take diff alphabet, drop diff alphabet)
      else (seps, alphabet)
    else (seps, alphabet) in
  let alphabet := shuffle alphabet saltChars in
  let guardCount := ceil_div (length alphabet) 12 in
  if (length alphabet <? 3)%nat then
    {| salt := saltChars; alphabet := alphabet;
       seps := drop guardCount seps; guards := take guardCount seps |}
  else
    {| salt := saltChars; alphabet := drop guardCount alphabet;
       seps := seps; guards := take guardCount alphabet |}.

Definition HashIds (saltS : string) : t :=
  create saltS "abcdefghijklmnopqrstuvwxyzABCDEFGHIJKLMNOPQRSTUVWXYZ1234567890"
    "cfhistuCFHISTU".

Section Codec.

Variable h : t.

Fixpoint numbersIdInt (numbers : list N) (i : N) : N :=
  match numbers with
  | [] => 0
  | number :: rest => (number `mod` (i + 100) + numbersIdInt rest (i + 1))%N
  end.

(** The [forEach] of [_encode], from the number at index [i] on. *)
Fixpoint encode_from (lottery : ascii) (i : N) (alphabet : list ascii)
    (numbers : list N) : list ascii :=
  match numbers with
  | [] => []
  | number :: rest =>
      let buffer := lottery :: salt h ++ alphabet in
      let alphabet := shuffle alphabet buffer in
      let last := toAlphabet number alphabet in
      last ++
      match rest with
      | [] => []
      | _ =>
          let charCode := (codePoint (hd nul last) + i)%N in
          let extraNumber := (number `mod` charCode)%N in
          [nth (N.to_nat (extraNumber `mod` N.of_nat (length (seps h)))%N) (seps h) nul]
      end ++ encode_from lottery (i + 1) alphabet rest
  end.

Definition _encode (numbers : list N) : list ascii :=
  let n := numbersIdInt numbers 0 in
  let lottery := nth (N.to_nat (n `mod` N.of_nat (length (alphabet h)))%N) (alphabet h) nul in
  lottery :: encode_from lottery 0 (alphabet h) numbers.

Definition encode (numbers : list N) : string :=
  match numbers with
  | [] => ""
  | _ => join (_encode numbers)
  end.

(** [s.split(/[chars]/)] *)
Fixpoint split (separators : list ascii) (s : list ascii) : list (list ascii) :=
  match s with
  | [] => [[]]
  | c :: rest =>
      if bool_decide (c ∈ separators) then [] :: split separators rest
      else match split separators rest with
           | piece :: more => (c :: piece) :: more
           | [] => [[c]]
           end
  end.

Definition isValidId (id : list ascii) : bool :=
  forallb (λ c, bool_decide (c ∈ guards h ++ seps h ++ alphabet h)) id.

(** The loop of [_decode]: [None] when a character is not in the
    alphabet. *)
Fixpoint decode_from (lotteryChar : ascii) (lastAlphabet : list ascii)
    (idArray : list (list ascii)) : option (list N) :=
  match idArray with
  | [] => Some []
  | subId :: rest =>
      let buffer := lotteryChar :: salt h ++ lastAlphabet in
      let nextAlphabet := shuffle lastAlphabet (take (length lastAlphabet) buffer) in
      number ← fromAlphabet subId nextAlphabet;
      numbers ← decode_from lotteryChar nextAlphabet rest;
      Some (number :: numbers)
  end.

(** What [decode] gives: an array of numbers, or the error thrown for
    an id with a character outside the alphabets. *)
Inductive decoded :=
| Numbers (numbers : list N)
| Invalid.

Definition _decode (id : list ascii) : decoded :=
  if negb (isValidId id) then Invalid
  else
    let idGuardsArray := split (guards h) id in
    let splitIndex :=
      if (length idGuardsArray =? 3)%nat || (length idGuardsArray =? 2)%nat
      then 1%nat else 0%nat in
    let idBreakdown := nth splitIndex idGuardsArray [] in
    match idBreakdown with
    | [] => Numbers []
    | lotteryChar :: tail =>
        let idArray := split (seps h) tail in
        match decode_from lotteryChar (alphabet h) idArray with
        | None => Invalid
        | Some result =>
            if bool_decide (_encode result = id) then Numbers result else Numbers []
        end
    end.

Definition decode (id : string) : decoded :=
  match id with
  | "" => Numbers []
  | _ => _decode (chars id)
  end.

Definition hexDigits : list ascii := chars "0123456789abcdef".

Definition hexValue (c : ascii) : option N :=
  let n := N_of_ascii c in
  if (48 <=? n)%N && (n <=? 57)%N then Some (n - 48)%N
  else if (65 <=? n)%N && (n <=? 70)%N then Some (n - 55)%N
  else if (97 <=? n)%N && (n <=? 102)%N then Some (n - 87)%N
  else None.

(** [/^[\dA-Fa-f]+$/.test(hex)] *)
Definition isHex (hex : list ascii) : bool :=
  negb (bool_decide (hex = [])) && forallb (λ c, bool_decide (is_Some (hexValue c))) hex.

(** [Number.parseInt(part, 16)] on hexadecimal digits. *)
Definition parseInt16 (part : list ascii) : N :=
  foldl (λ n c, n * 16 + default 0 (hexValue c))%N 0%N part.

(** [number.toString(16)] *)
Definition toString16 (number : N) : list ascii := toAlphabet number hexDigits.

(** [splitAtIntervalAndMap] before the map: pieces of [nth]
    characters, the last one possibly shorter. *)
Fixpoint splitAtInterval (fuel : nat) (str : list ascii) (nth : nat)
    : list (list ascii) :=
  match fuel, str with
  | S fuel, _ :: _ => take nth str :: splitAtInterval fuel (drop nth str) nth
  | _, _ => []
  end.

Definition encodeHex (hex : string) : string :=
  if negb (isHex (chars hex)) then ""
  else
    let numbers := (λ part, parseInt16 ("1"%char :: part))
                   <$> splitAtInterval (String.length hex) (chars hex) 12 in
    encode numbers.

Definition decodeHex (id : string) : option string :=
  match decode id with
  | Numbers numbers => Some (join (concat ((λ n, drop 1 (toString16 n)) <$> numbers)))
  | Invalid => None
  end.

End Codec.

(** One step of the fold in [fromAlphabet]. *)
Definition read_digit (A : list ascii) (carry : option N) (item : ascii) : option N :=
  c ← carry; i ← index_of item A; Some (c * N.of_nat (length A) + N.of_nat i)%N.

(** What the constructor establishes about an instance. *)
Record wf (h : t) : Prop := {
  wf_NoDup : NoDup (alphabet h);
  wf_size : (2 ≤ length (alphabet h))%nat;
  wf_seps : seps h ≠ [];
  wf_alphabet_seps : ∀ c, c ∈ alphabet h → c ∉ seps h;
  wf_alphabet_guards : ∀ c, c ∈ alphabet h → c ∉ guards h;
  wf_seps_guards : ∀ c, c ∈ seps h → c ∉ guards h
}.

(** The default alphabet without the separators, and the separators. *)
Definition letters : list ascii :=
  chars "abdegjklmnopqrvwxyzABDEGJKLMNOPQRVWXYZ1234567890".
Definition separators : list ascii := chars "cfhistuCFHISTU".

End Hashids.

(** [new HashIds(process.env.HASHID_SALT)] as the codec sees it: an
    unset salt is the empty one; [encodeHex] rejects what is neither a
    string nor a BigInt, [decode] rejects an id with a character that
    is in none of its alphabets. *)
Definition library (salt : option string) : Methods.hashids :=
  let h := Hashids.HashIds (default "" salt) in
  {| Methods.encodeHex := λ id,
       match id with
       | Methods.IdStr hex => Return (Hashids.encodeHex h hex)
       | _ => Throw (Builtin "Error"
                       "Hashids: The provided value is neither a string, nor a BigInt")
       end;
     Methods.decodeHex := λ id,
       match Hashids.decodeHex h id with
       | Some hex => Return hex
       | None => Throw (Builtin "Error"
                          "The provided ID is invalid, as it contains characters that do not exist in the alphabet")
       end |}.

(** ** Configuration objects and the lodash helper the factories use *)
Module Config.

(** Option objects are trees.  A number is carried by its canonical
    decimal rendering, which is also what a template literal prints. *)
Inductive json :=
| JUndefined
| JNull
| JBool (b : bool)
| JNum (rendering : string)
| JStr (s : string)
| JObj (fields : list (string * json)).

Definition truthy (v : json) : bool :=
  match v with
  | JUndefined | JNull => false
  | JBool b => b
  | JNum r => negb (String.eqb r "0" || String.eqb r "NaN")
  | JStr s => negb (String.eqb s "")
  | JObj _ => true
  end.

Definition to_string (v : json) : string :=
  match v with
  | JUndefined => "undefined"
  | JNull => "null"
  | JBool true => "true"
  | JBool false => "false"
  | JNum r => r
  | JStr s => s
  | JObj _ => "[object Object]"
  end.

Fixpoint lookup_field (k : string) (fields : list (string * json)) : option json :=
  match fields with
  | [] => None
  | (k', v) :: rest => if String.eqb k k' then Some v else lookup_field k rest
  end.

(** [o.k], with [undefined] for a missing key. *)
Definition prop (k : string) (fields : list (string * json)) : json :=
  default JUndefined (lookup_field k fields).

(** [o.k = v]: an existing key keeps its place, a new one goes last. *)
Fixpoint assign (k : string) (v : json) (fields : list (string * json))
    : list (string * json) :=
  match fields with
  | [] => [(k, v)]
  | (k', v') :: rest =>
      if String.eqb k k' then (k, v) :: rest else (k', v') :: assign k v rest
  end.

(** [_.defaultsDeep(object, source)]: a key of the source is copied
    when the object has it missing or [undefined]; when both sides
    hold objects the defaults are filled in recursively; any other
    value the object already holds is kept. *)
Fixpoint defaultsDeep (object source : json) {struct source} : json :=
  match object, source with
  | JObj fields, JObj defaults =>
      JObj ((fix fill (defaults acc : list (string * json)) {struct defaults} :=
               match defaults with
               | [] => acc
               | (k, d) :: rest =>
                   fill rest
                     match lookup_field k acc with
                     | None | Some JUndefined => assign k d acc
                     | Some (JObj held) =>
                         match d with
                         | JObj _ => assign k (defaultsDeep (JObj held) d) acc
                         | _ => acc
                         end
                     | Some _ => acc
                     end
               end) defaults fields)
  | _, _ => object
  end.

(** One entry of a schema's [actions] table: an action definition, or
    [false], which switches the action off. *)
Record action := Action {
  rest : option string;
  needEntity : bool;
  permissions : list string
}.

Inductive action_entry :=
| Defined (a : action)
| Off.

(** The part of the returned schema the properties below are about:
    the options handed to [DbService] and the [actions] table. *)
Record schema := Schema {
  mixins : list (string * json);
  salt : option string;
  actions : list (string * action_entry)
}.

(** What a factory call can touch: the process environment and the
    directories on disk. *)
Record process := Process {
  env : gmap string string;
  dirs : gset string
}.

Definition getenv (x : string) : ST process (option string) :=
  λ p, (Return (env p !! x), p).
Definition setenv (x v : string) : ST process () :=
  modify (λ p, Process (<[x := v]> (env p)) (dirs p)).
(** [mkdirp.sync(dir)]: recorded is that [dir] is there afterwards;
    the missing ancestors it creates on the way are not. *)
Definition mkdir (dir : string) : ST process () :=
  modify (λ p, Process (env p) ({[dir]} ∪ dirs p)).

Definition env_value (o : option string) : json :=
  match o with Some s => JStr s | None => JUndefined end.

(** [a || b] *)
Definition or_else (a b : json) : json := if truthy a then a else b.

Section Factories.

(** [path.resolve] and [path.join] of the runtime. *)
Variable path_resolve : string → string.
Variable path_join : string → string → string.

(** [path.resolve(v)] accepts strings only. *)
Definition resolve_dir (v : json) : ST process string :=
  match v with
  | JStr s => mret (path_resolve s)
  | _ => throw (TypeError "The paths[0] argument must be of type string")
  end.

Definition NeDB_defaults (dir : string) (opts : list (string * json)) : json :=
  JObj [("adapter", JObj [
    ("type", JStr "NeDB");
    ("options", JObj [
      ("neDB", JObj [
        ("inMemoryOnly", JBool false);
        ("corruptAlertThreshold", JNum "0.5");
        ("filename",
         JStr (path_join dir (to_string (prop "collection" opts) +:+ ".db")))])])])].

Definition MongoDB_defaults (uri : json) (opts : list (string * json)) : json :=
  JObj [("adapter", JObj [
    ("type", JStr "MongoDB");
    ("options", JObj [
      ("uri", or_else uri (JStr "mongodb://localhost/data"));
      ("collection", prop "collection" opts)])])].

Definition fields_of (v : json) : list (string * json) :=
  match v with JObj fields => fields | _ => [] end.

Definition with_defaults (opts : list (string * json)) (defaults : json)
    : list (string * json) :=
  fields_of (defaultsDeep (JObj opts) defaults).

End Factories.

End Config.

(** ** What the hooks see of the service

    [createIndexes], [clearEntities] and [countEntities] come from the
    database service the mixin wraps, [seedDB] from the service that
    uses the mixin.  Each may fail; all but the count act on the
    collection; a method that is not a function is [None]. *)
Module Service.

Inductive event :=
| CreateIndexes
| ClearEntities
| CountEntities
| SeedDB
| LogInfo (message : string)
| LogError (message : string).

#[global] Instance event_eq_dec : EqDecision event.
Proof. solve_decision. Defined.

Section WithStore.

Variable store : Type.

Record service := {
  createIndexes : option (ST store ());
  clearEntities : ST store ();
  countEntities : store → completion Z;
  seedDB : option (ST store ())
}.

Record state := State {
  db : store;
  trace : list event
}.

Definition log (e : event) : ST state () :=
  modify (λ s, State (db s) (trace s ++ [e])).

(** A method that only reads the collection. *)
Definition reading {A} (method : store → completion A) : ST store A :=
  λ d, (method d, d).

(** [await this.method()], noted in the trace. *)
Definition invoke {A} (e : event) (method : ST store A) : ST state A := λ s,
  let '(r, d) := method (db s) in (r, State d (trace s ++ [e])).

(** [this.method()] for a method that may be missing. *)
Definition invoke_opt (e : event) (name : string) (method : option (ST store ()))
    : ST state () :=
  match method with
  | Some m => invoke e m
  | None => throw (TypeError ("this." +:+ name +:+ " is not a function"))
  end.

(** [try { body } catch (err) { handler }] *)
Definition try_catch {A} (body : ST state A) (handler : exn → ST state A)
    : ST state A := λ s,
  match body s with
  | (Return a, s') => (Return a, s')
  | (Throw e, s') => handler e s'
  end.

(** [_.isFunction(this.method)] *)
Definition isFunction {A} (method : option A) : bool :=
  match method with Some _ => true | None => false end.

Definition seeded (s : state) : nat :=
  length (filter (λ e, e = SeedDB) (trace s)).

End WithStore.

Arguments createIndexes {store} _.
Arguments clearEntities {store} _.
Arguments countEntities {store} _.
Arguments seedDB {store} _.
Arguments State {store} _ _.
Arguments db {store} _.
Arguments trace {store} _.
Arguments log {store} _.
Arguments reading {store A} _.
Arguments invoke {store A} _ _.
Arguments invoke_opt {store} _ _ _.
Arguments try_catch {store A} _ _.
Arguments seeded {store} _.

End Service.

(** ** [src/db.mixin.js] *)
Module DbMixin.

Import Config Service.

(** [const TESTING = process.env.NODE_ENV === "test"], fixed when the
    module is loaded. *)
Definition TESTING (load_env : gmap string string) : bool :=
  bool_decide (load_env !! "NODE_ENV" = Some "test").

Section Factory.

(** [path.resolve] and [path.join] of the runtime, the 64 hex digits
    [crypto.randomBytes(32).toString("hex")] yields, and the value of
    [TESTING]. *)
Variable path_resolve : string → string.
Variable path_join : string → string → string.
Variable randomHex : string.
Variable testing : bool.

(** The adapter block of the factory, lines 20-51. *)
Definition select_adapter (opts : list (string * json))
    : ST process (list (string * json)) :=
  test_int ← getenv "TEST_INT";
  only_generate ← getenv "ONLY_GENERATE";
  if testing && negb (truthy (env_value test_int)) || truthy (env_value only_generate)
  then mret (with_defaults opts (JObj [("adapter", JStr "NeDB")]))
  else
    folder ← getenv "NEDB_FOLDER";
    if truthy (or_else (env_value folder) (prop "nedb" opts)) then
      folder' ← getenv "NEDB_FOLDER";
      dir ← resolve_dir path_resolve (or_else (env_value folder') (prop "nedb" opts));
      _ ← mkdir dir;
      mret (with_defaults opts (NeDB_defaults path_join dir opts))
    else
      uri ← getenv "MONGO_URI";
      mret (with_defaults opts (MongoDB_defaults (env_value uri) opts)).

(** [module.exports = function (opts = {})], lines 13-167. *)
Definition exports (opts : list (string * json)) : ST process schema :=
  token ← getenv "TOKEN_SALT";
  e2e ← getenv "TEST_E2E";
  _ ← (if negb (truthy (env_value token)) && (testing || truthy (env_value e2e))
       then setenv "HASHID_SALT" randomHex
       else mret ());
  hashid_salt ← getenv "HASHID_SALT";
  opts' ← select_adapter opts;
  mret (Schema opts' hashid_salt []).

End Factory.

Section Hooks.

Variable store : Type.
Variable this : service store.
Variable testing : bool.
Variable env : gmap string string.
Variable collection : json.

(** [async started()], lines 140-163. *)
Definition started : ST (state store) () :=
  _ ← (if negb testing then
         try_catch (invoke_opt CreateIndexes "createIndexes" (createIndexes this))
           (λ err, log (LogError "Unable to create indexes."))
       else mret ());
  _ ← (if Methods.env_truthy env "TEST_E2E" || Methods.env_truthy env "TEST_INT" then
         _ ← log (LogInfo ("Clear '" +:+ to_string collection
                                   +:+ "' collection before tests..."));
         invoke ClearEntities (clearEntities this)
       else mret ());
  count ← invoke CountEntities (reading (countEntities this));
  if (count =? 0)%Z && isFunction (seedDB this) then
    _ ← log (LogInfo ("Seed '" +:+ to_string collection +:+ "' collection..."));
    invoke_opt SeedDB "seedDB" (seedDB this)
  else mret ().

End Hooks.

End DbMixin.

(** ** [src/unnamed/part_000] *)
Module Part000.

Import Config Service.

(** The exported [ACTIONS] table, lines 44-78. *)
Definition ACTIONS : list (string * action_entry) :=
  [("create", Defined (Action None false []));
   ("list", Defined (Action None false []));
   ("find", Defined (Action (Some "GET /find") false []));
   ("count", Defined (Action (Some "GET /count") false []));
   ("get", Defined (Action None true []));
   ("update", Defined (Action None true []));
   ("replace", Off);
   ("remove", Defined (Action None true []))].

(** [`${opts.permissions}.name`] *)
Definition permission (opts : list (string * json)) (name : string) : string :=
  to_string (prop "permissions" opts) +:+ "." +:+ name.

(** The [actions] table of the schema, lines 116-162. *)
Definition schema_actions (opts : list (string * json)) : list (string * action_entry) :=
  [("create", Defined (Action None false [permission opts "create"]));
   ("list", Defined (Action None false [permission opts "list"]));
   ("find", Defined (Action (Some "GET /find") false [permission opts "find"]));
   ("count", Defined (Action (Some "GET /count") false [permission opts "count"]));
   ("get", Defined (Action None true [permission opts "get"]));
   ("update", Defined (Action None true [permission opts "update"]));
   ("replace", Off);
   ("remove", Defined (Action None true [permission opts "remove"]))].

Section Factory.

Variable path_resolve : string → string.
Variable path_join : string → string → string.

(** The adapter block of the factory, lines 84-109. *)
Definition select_adapter (opts : list (string * json))
    : ST process (list (string * json)) :=
  if truthy (prop "nedb" opts) then
    dir ← resolve_dir path_resolve (prop "nedb" opts);
    _ ← mkdir dir;
    mret (with_defaults opts (NeDB_defaults path_join dir opts))
  else
    uri ← getenv "MONGO_URI";
    mret (with_defaults opts (MongoDB_defaults (env_value uri) opts)).

(** [module.exports = function (opts = {})], lines 80-231. *)
Definition exports (opts : list (string * json)) : ST process schema :=
  hashid_salt ← getenv "HASHID_SALT";
  opts' ← select_adapter opts;
  mret (Schema opts' hashid_salt (schema_actions opts')).

End Factory.

Section Hooks.

Variable store : Type.
Variable this : service store.
Variable collection : json.

(** [async started()], lines 208-227. *)
Definition started : ST (state store) () :=
  _ ← (if isFunction (createIndexes this) then
         try_catch (invoke_opt CreateIndexes "createIndexes" (createIndexes this))
           (λ err, log (LogError "Unable to create indexes."))
       else mret ());
  if isFunction (seedDB this) then
    count ← invoke CountEntities (reading (countEntities this));
    if (count =? 0)%Z then
      _ ← log (LogInfo ("Seed '" +:+ to_string collection +:+ "' collection..."));
      invoke_opt SeedDB "seedDB" (seedDB this)
    else mret ()
  else mret ().

End Hooks.

End Part000.

(** ** The entity settings

    The [settings] block of the schema in [src/db.mixin.js] (lines
    57-90) and the constants [FIELDS], [SCOPE] and [DSCOPE] that
    [src/unnamed/part_000] declares and exports (lines 13-41, 233-235). *)
Module Settings.

(** [() => Date.now()]: a hook of no argument that reads the clock. *)
Definition Date_now (clock : Z) : Z := clock.

(** One field definition; an attribute the literal leaves out is
    [false] or [None]. *)
Record field := Field {
  type : string;
  primaryKey : bool;
  secure : bool;
  columnName : option string;
  readonly : bool;
  hidden : option string;
  onCreate : option (Z → Z);
  onUpdate : option (Z → Z);
  onRemove : option (Z → Z)
}.

Record settings := {
  fields : list (string * field);
  scopes : list (string * list (string * Config.json));
  defaultScopes : list string
}.

(** [const FIELDS], [const SCOPE] and [const DSCOPE] of
    [src/unnamed/part_000]. *)
Definition FIELDS : list (string * field) :=
  [("id", Field "string" true true (Some "_id") false None None None None);
   ("options", Field "object" false false None false None None None None);
   ("createdAt", Field "number" false false None true None (Some Date_now) None None);
   ("updatedAt", Field "number" false false None true None None (Some Date_now) None);
   ("deletedAt",
    Field "number" false false None true (Some "byDefault") None None (Some Date_now))].

Definition SCOPE : list (string * list (string * Config.json)) :=
  [("notDeleted", [("deletedAt", Config.JNull)])].

Definition DSCOPE : list string := ["notDeleted"].

(** [schema.settings] of [src/db.mixin.js]. *)
Definition DbMixin_settings : settings := {|
  fields :=
    [("id", Field "string" true true (Some "_id") false None None None None);
     ("options", Field "object" false false None false None None None None);
     ("createdAt", Field "number" false false None true None (Some Date_now) None None);
     ("updatedAt", Field "number" false false None true None None (Some Date_now) None);
     ("deletedAt",
      Field "number" false false None true (Some "byDefault") None None (Some Date_now))];
  scopes := [("notDeleted", [("deletedAt", Config.JNull)])];
  defaultScopes := ["notDeleted"]
|}.

(** Every default scope is a declared scope, and every field a declared
    scope filters on is a declared field. *)
Definition consistent (st : settings) : bool :=
  forallb (λ name,
             match list_find (λ entry, entry.1 = name) (scopes st) with
             | Some (_, (_, filter)) =>
                 forallb (λ cond : string * Config.json,
                            bool_decide (cond.1 ∈ (fields st).*1)) filter
             | None => false
             end) (defaultScopes st).

End Settings.

(** ** Sample inputs *)
Module Samples.

Import Methods.

(** A query object at address 1, request parameters at 2, a context at
    3 whose action (4) declares in its schema (5) a required [domain]
    (rule 6) and an optional [owner] (rule 7). *)
Definition sample_heap : gmap loc (gmap string value) :=
  {[ 1%nat := {[ "status" := VStr "active" ]};
     2%nat := {[ "domain" := VStr "d1" ]};
     3%nat := {[ "action" := VObj 4 ]};
     4%nat := {[ "params" := VObj 5 ]};
     5%nat := {[ "domain" := VObj 6; "owner" := VObj 7 ]};
     6%nat := {[ "type" := VStr "string" ]};
     7%nat := {[ "type" := VStr "string"; "optional" := VBool true ]} ]}.

Definition sample_world : world := World sample_heap [].

(** The same store with request parameters at 10 that name a domain
    and an owner. *)
Definition two_keys_world : world :=
  World (<[ 10%nat := {[ "domain" := VStr "d1"; "owner" := VStr "u7" ]} ]> sample_heap) [].


(** A broker that resolves every id to an entity, and one that
    resolves none. *)
Definition resolves_all : string → value → completion value :=
  λ _ id, Return (VObj 8).
Definition resolves_none : string → value → completion value :=
  λ _ _, Return VNull.

(** A broker whose call is rejected: the service is not there. *)
Definition unreachable : string → value → completion value :=
  λ _ _, Throw (Rejection (VStr "Service not found")).

(** The global object of the runtime: the standard error classes. *)
Definition node_globals : gmap string class :=
  {[ "Error" := BuiltinClass "Error";
     "TypeError" := BuiltinClass "TypeError";
     "RangeError" := BuiltinClass "RangeError";
     "ReferenceError" := BuiltinClass "ReferenceError" ]}.

(** The same with Moleculer's client error installed on it. *)
Definition patched_globals : gmap string class :=
  <[ "MoleculerClientError" := MoleculerClientErrorClass ]> node_globals.

(** The id of the driver's documentation, under the empty salt. *)
Definition sample_id : list byte :=
  [x50; x7f; x1f; x77; xbc; xf8; x6c; xd7; x99; x43; x90; x11]%byte.

(** The id one above it. *)
Definition next_id : list byte :=
  [x50; x7f; x1f; x77; xbc; xf8; x6c; xd7; x99; x43; x90; x12]%byte.

(** A sample runtime: a process started in [/srv/app], with POSIX
    paths that need no normalising. *)
Definition sample_resolve (s : string) : string := "/srv/app/" +:+ s.
Definition sample_join (a b : string) : string := a +:+ "/" +:+ b.
Definition sample_process : Config.process := Config.Process ∅ ∅.

Definition accounts_on_disk : list (string * Config.json) :=
  [("collection", Config.JStr "accounts"); ("permissions", Config.JStr "accounts");
   ("nedb", Config.JStr "data")].

Definition accounts_on_mongo : list (string * Config.json) :=
  [("collection", Config.JStr "accounts"); ("permissions", Config.JStr "accounts")].

(** Options that bring an adapter setting of their own. *)
Definition accounts_preset : list (string * Config.json) :=
  [("collection", Config.JStr "accounts"); ("nedb", Config.JStr "data");
   ("adapter", Config.JObj [("type", Config.JStr "MongoDB")])].

(** An accounts service on a collection of names: the count is the
    number of names, clearing removes them all, index creation changes
    nothing and the seed adds an administrator. *)
Definition accounts_service : Service.service (list string) := {|
  Service.createIndexes := Some (λ d, (Return (), d));
  Service.clearEntities := λ _, (Return (), []);
  Service.countEntities := λ d, Return (Z.of_nat (length d));
  Service.seedDB := Some (λ d, (Return (), d ++ ["admin"]))
|}.

(** The accounts service on a store that refuses to build indexes, and
    on a store that is away: clearing and counting fail. *)
Definition accounts_without_indexes : Service.service (list string) := {|
  Service.createIndexes :=
    Some (λ d, (Throw (Builtin "MongoError" "index build failed"), d));
  Service.clearEntities := λ _, (Return (), []);
  Service.countEntities := λ d, Return (Z.of_nat (length d));
  Service.seedDB := Some (λ d, (Return (), d ++ ["admin"]))
|}.

Definition accounts_offline : Service.service (list string) := {|
  Service.createIndexes := Some (λ d, (Return (), d));
  Service.clearEntities := λ d, (Throw (Builtin "MongoError" "connection lost"), d);
  Service.countEntities := λ _, Throw (Builtin "MongoError" "connection lost");
  Service.seedDB := Some (λ d, (Return (), d ++ ["admin"]))
|}.

(** Options that name the adapter by its bare name. *)
Definition accounts_bare_adapter : list (string * Config.json) :=
  [("collection", Config.JStr "accounts"); ("nedb", Config.JStr "data");
   ("adapter", Config.JStr "NeDB")].

(** A test run that configures [TOKEN_SALT] only. *)
Definition token_only : Config.process :=
  Config.Process {[ "TOKEN_SALT" := "t0ken" ]} ∅.

End Samples.

(** ** Notions the properties are stated with *)
Module Notions.

Import Methods Service.

(** The error both throw sites build when the class is there. *)
Definition permission_denied (key : string) (v : value) : exn :=
  ClientError ("You have no right for the " +:+ key +:+ " '" +:+ to_string v +:+ "'")
    403 "ERR_NO_PERMISSION" (DObj [("domain", DVal v)]).

Definition field_required (key : string) : exn :=
  ClientError (key +:+ " is required") 422 "VALIDATION_ERROR"
    (DArr [DObj [("type", DVal (VStr "required")); ("field", DVal (VStr key))]]).

Import Config.

(** The adapter settings the two branches write. *)
Definition NeDB_adapter (filename : string) : json :=
  JObj [("type", JStr "NeDB");
        ("options", JObj [("neDB", JObj [("inMemoryOnly", JBool false);
                                         ("corruptAlertThreshold", JNum "0.5");
                                         ("filename", JStr filename)])])].

Definition MongoDB_adapter (uri : string) (collection : json) : json :=
  JObj [("type", JStr "MongoDB");
        ("options", JObj [("uri", JStr uri); ("collection", collection)])].

(** [process.env.MONGO_URI || "mongodb://localhost/data"] *)
Definition mongo_uri (env : gmap string string) : string :=
  match env !! "MONGO_URI" with
  | Some u => if String.eqb u "" then "mongodb://localhost/data" else u
  | None => "mongodb://localhost/data"
  end.

(** The test or generate mode of [src/db.mixin.js], line 20. *)
Definition generate_mode (testing : bool) (env : gmap string string) : bool :=
  testing && negb (Methods.env_truthy env "TEST_INT")
  || Methods.env_truthy env "ONLY_GENERATE".

(** [process.env.NEDB_FOLDER || opts.nedb] *)
Definition nedb_folder (env : gmap string string) (opts : list (string * json)) : json :=
  match env !! "NEDB_FOLDER" with
  | Some d => if String.eqb d "" then prop "nedb" opts else JStr d
  | None => prop "nedb" opts
  end.

(** The names of the entries of an action table that are not switched
    off, each with its permission tags. *)
Definition exposed (table : list (string * action_entry)) : list (string * list string) :=
  omap (λ '(name, entry),
          match entry with
          | Defined a => Some (name, permissions a)
          | Off => None
          end) table.

Fixpoint lookup_action (name : string) (table : list (string * action_entry))
    : option action_entry :=
  match table with
  | [] => None
  | (n, e) :: rest => if String.eqb name n then Some e else lookup_action name rest
  end.

Section Stores.

Variable path_resolve : string → string.
Variable path_join : string → string → string.

(** The file store configured by either factory for the directory [d]. *)
Definition file_store (d : string) (opts : list (string * json))
    : list (string * json) :=
  assign "adapter"
    (NeDB_adapter (path_join (path_resolve d)
                     (to_string (prop "collection" opts) +:+ ".db")))
    opts.

(** The networked store configured by either factory. *)
Definition network_store (env : gmap string string) (opts : list (string * json))
    : list (string * json) :=
  assign "adapter" (MongoDB_adapter (mongo_uri env) (prop "collection" opts)) opts.

End Stores.

Section Seeding.

Variable store : Type.
Variable this : service store.

(** [count == 0] for the count the service reports on a collection. *)
Definition counts_zero (d : store) : bool :=
  match countEntities this d with
  | Return count => (count =? 0)%Z
  | Throw _ => false
  end.

(** Creating indexes does not change what the count reports. *)
Definition indexes_keep_count : Prop :=
  ∀ create d r d',
    createIndexes this = Some create → create d = (r, d') →
    countEntities this d' = countEntities this d.

(** Clearing succeeds and leaves a collection that counts zero. *)
Definition clearing_empties : Prop :=
  ∀ d, ∃ d', clearEntities this d = (Return (), d') ∧ counts_zero d' = true.

(** A seed function that, whenever it is run, leaves a collection that
    does not count zero. *)
Definition seed_fills : Prop :=
  ∀ seed d r d',
    seedDB this = Some seed → seed d = (r, d') → counts_zero d' = false.

End Seeding.

Arguments counts_zero {store} this d.
Arguments indexes_keep_count {store} this.
Arguments clearing_empties {store} this.
Arguments seed_fills {store} this.

(** The own property [k] of the object at [l], if it has one. *)
Definition own_property (h : gmap loc (gmap string value)) (l : loc) (k : string)
    : option value :=
  h !! l ≫= λ fields : gmap string value, fields !! k.

(** [null] or [undefined]: a value with no properties to read. *)
Definition nullish (v : value) : bool :=
  match v with
  | VUndefined | VNull => true
  | _ => false
  end.

(** An object literal names no key twice, at any depth. *)
Fixpoint distinct_keys (v : json) : bool :=
  match v with
  | JObj fields =>
      bool_decide (NoDup fields.*1)
      && forallb (λ kv, match kv with (_, d) => distinct_keys d end) fields
  | _ => true
  end.

(** What [_.defaultsDeep] does for one key of the defaults: the value it
    writes at that key, if it writes one, given what the object holds
    there; and the object after that key was handled. *)
Definition filled (held : option json) (d : json) : option json :=
  match held with
  | None | Some JUndefined => Some d
  | Some (JObj fields) =>
      match d with
      | JObj _ => Some (defaultsDeep (JObj fields) d)
      | _ => None
      end
  | Some _ => None
  end.

Definition fill_step (acc : list (string * json)) (kd : string * json)
    : list (string * json) :=
  match filled (lookup_field kd.1 acc) kd.2 with
  | Some v => assign kd.1 v acc
  | None => acc
  end.

(** An action table with every permission list emptied. *)
Definition without_permissions (table : list (string * action_entry))
    : list (string * action_entry) :=
  map (λ '(name, entry),
         (name, match entry with
                | Defined a => Defined (Action (rest a) (needEntity a) [])
                | Off => Off
                end)) table.

(** The events of a start that are invocations of a service method. *)
Definition is_call (e : event) : bool :=
  match e with
  | CreateIndexes | ClearEntities | CountEntities | SeedDB => true
  | LogInfo _ | LogError _ => false
  end.

Section Restarts.

Variable store : Type.
Variable this : service store.

(** [n] starts of a service one after the other, each from the state
    the one before left, however it ended. *)
Definition starts (start : ST (state store) ()) (n : nat) (s : state store)
    : state store :=
  Nat.iter n (λ s, snd (start s)) s.

(** The methods a start awaits do not fail. *)
Definition count_succeeds : Prop :=
  ∀ d, ∃ count, countEntities this d = Return count.

Definition clear_succeeds : Prop :=
  ∀ d, ∃ d', clearEntities this d = (Return (), d').

Definition seed_succeeds : Prop :=
  ∀ seed d, seedDB this = Some seed → ∃ d', seed d = (Return (), d').

End Restarts.

Arguments starts {store} start n s.
Arguments count_succeeds {store} this.
Arguments clear_succeeds {store} this.
Arguments seed_succeeds {store} this.

End Notions.

(** * Properties *)

(** ** [validateHas] *)
Module ValidateHasFacts.

Import Methods Samples Notions.

Lemma MoleculerClientError_not_bound :
  "MoleculerClientError" ∉ (module_bindings ++ validateHas_locals).
Proof. apply (bool_decide_unpack _). by vm_compute. Qed.

(** Run a method body: unfold the monad and rewrite with the known
    reads and answers as they come up. *)
Ltac run :=
  unfold validateHas, mbind, ST_bind, mret, ST_ret, get_prop, ctx_call,
    set_prop, resolve, throw;
  repeat (with_strategy opaque [read] simpl;
          match goal with
          | H : ?x = _ |- context [?x] => rewrite H
          end);
  with_strategy opaque [read] simpl.

Section Facts.

Variable globals : gmap string class.
Variable broker : string → value → completion value.

(** C2. Without an execution context (a falsy [ctx]) [validateHas]
    returns the query it was given and leaves the store and the log of
    broker calls as they were: nothing is read, written or called. *)
Theorem validateHas_without_context caller key query ctx params w :
  truthy ctx = false →
  validateHas globals broker caller key query ctx params w = (Return query, w).
Proof.
  intros Hctx. unfold validateHas. by rewrite Hctx.
Qed.

(** What [validateHas] does once the lookup came back empty: it has
    logged the call, and it throws what [new MoleculerClientError(...)]
    evaluates to in the global environment. *)
Lemma validateHas_denied caller key query c params w v res :
  read (heap w) params key = Return v →
  truthy v = true →
  broker caller v = Return res →
  truthy res = false →
  validateHas globals broker caller key query (VObj c) params w =
    (Throw match globals !! "MoleculerClientError" with
           | Some C => construct C
                         ("You have no right for the " +:+ key +:+ " '"
                            +:+ to_string v +:+ "'")
                         403 "ERR_NO_PERMISSION" (DObj [("domain", DVal v)])
           | None => ReferenceError "MoleculerClientError"
           end,
     World (heap w) (calls w ++ [(caller, v)])).
Proof.
  intros Hread Hv Hcall Hres.
  run.
  destruct (globals !! "MoleculerClientError"); [|done].
  by run.
Qed.

(** C3, as the code has it. [MoleculerClientError] is bound nowhere in
    the module, so with the class absent from the global object the
    refused lookup ends in a [ReferenceError], not in the 403 client
    error the throw site spells out. *)
Theorem validateHas_denied_throws_ReferenceError caller key query c params w v res :
  globals !! "MoleculerClientError" = None →
  read (heap w) params key = Return v →
  truthy v = true →
  broker caller v = Return res →
  truthy res = false →
  validateHas globals broker caller key query (VObj c) params w =
    (Throw (ReferenceError "MoleculerClientError"),
     World (heap w) (calls w ++ [(caller, v)])).
Proof.
  intros Hunbound Hread Hv Hcall Hres.
  rewrite (validateHas_denied _ _ _ _ _ _ v res) by done.
  by rewrite Hunbound.
Qed.

(** With the class installed the same path throws the permission-denied
    error carrying the denied id. *)
Lemma validateHas_denied_with_class caller key query c params w v res :
  globals !! "MoleculerClientError" = Some MoleculerClientErrorClass →
  read (heap w) params key = Return v →
  truthy v = true →
  broker caller v = Return res →
  truthy res = false →
  validateHas globals broker caller key query (VObj c) params w =
    (Throw (permission_denied key v), World (heap w) (calls w ++ [(caller, v)])).
Proof.
  intros Hbound Hread Hv Hcall Hres.
  rewrite (validateHas_denied _ _ _ _ _ _ v res) by done.
  by rewrite Hbound.
Qed.

(** C4, as the code has it. With [params[key]] falsy the schema of the
    action is consulted. A key the schema does not list, or lists as
    optional, makes the function fall off its end: it returns
    [undefined], not the query. A required key reaches the second throw
    site, which ends like the first. Nothing is written or called. *)
Theorem validateHas_key_absent caller key query c params w pk action schema rule :
  read (heap w) params key = Return pk →
  truthy pk = false →
  read (heap w) (VObj c) "action" = Return action →
  read (heap w) action "params" = Return schema →
  read (heap w) schema key = Return rule →
  (truthy rule = false →
   validateHas globals broker caller key query (VObj c) params w
   = (Return VUndefined, w))
  ∧ (∀ optional,
       truthy rule = true →
       read (heap w) rule "optional" = Return optional →
       validateHas globals broker caller key query (VObj c) params w
       = if truthy optional then (Return VUndefined, w)
         else (Throw match globals !! "MoleculerClientError" with
                     | Some C => construct C (key +:+ " is required") 422
                                   "VALIDATION_ERROR"
                                   (DArr [DObj [("type", DVal (VStr "required"));
                                                ("field", DVal (VStr key))]])
                     | None => ReferenceError "MoleculerClientError"
                     end, w)).
Proof.
  intros Hread Hpk Haction Hschema Hrule.
  split.
  - intros Hfalsy.
    by run.
  - intros optional Htruthy Hoptional.
    run.
    destruct (truthy optional); simpl; [done|].
    by destruct (globals !! "MoleculerClientError").
Qed.

(** With the class installed a missing required key throws the
    validation error naming the field. *)
Lemma validateHas_required_with_class caller key query c params w pk action schema
    rule optional :
  globals !! "MoleculerClientError" = Some MoleculerClientErrorClass →
  read (heap w) params key = Return pk →
  truthy pk = false →
  read (heap w) (VObj c) "action" = Return action →
  read (heap w) action "params" = Return schema →
  read (heap w) schema key = Return rule →
  truthy rule = true →
  read (heap w) rule "optional" = Return optional →
  truthy optional = false →
  validateHas globals broker caller key query (VObj c) params w
  = (Throw (field_required key), w).
Proof. intros. by run. Qed.


End Facts.

(** A call without context, on the sample store. *)
Lemma validateHas_without_context_witness :
  validateHas node_globals resolves_none "v1.domains.resolve" "domain"
    (VObj 1) VUndefined (VObj 2) sample_world
  = (Return (VObj 1), sample_world).
Proof.
  apply (validateHas_without_context node_globals resolves_none). reflexivity.
Defined.

(** The id ["d1"] refused by the domains service, in a runtime whose
    global object has only the standard classes. *)
Lemma validateHas_denied_throws_ReferenceError_witness :
  validateHas node_globals resolves_none "v1.domains.resolve" "domain"
    (VObj 1) (VObj 3) (VObj 2) sample_world
  = (Throw (Builtin "ReferenceError" "MoleculerClientError is not defined"),
     World sample_heap [("v1.domains.resolve", VStr "d1")]).
Proof.
  apply (validateHas_denied_throws_ReferenceError node_globals resolves_none
           "v1.domains.resolve" "domain" (VObj 1) 3 (VObj 2) sample_world
           (VStr "d1") VNull); reflexivity.
Defined.

(** Empty request parameters (an object that is not in the store reads
    as empty): [project] is not in the schema, [owner] is optional,
    [domain] is required. *)
Lemma validateHas_key_absent_witness :
  validateHas node_globals resolves_none "v1.projects.resolve" "project"
    (VObj 1) (VObj 3) (VObj 9) sample_world
  = (Return VUndefined, sample_world)
  ∧ validateHas node_globals resolves_none "v1.accounts.resolve" "owner"
      (VObj 1) (VObj 3) (VObj 9) sample_world
    = (Return VUndefined, sample_world)
  ∧ validateHas node_globals resolves_none "v1.domains.resolve" "domain"
      (VObj 1) (VObj 3) (VObj 9) sample_world
    = (Throw (Builtin "ReferenceError" "MoleculerClientError is not defined"),
       sample_world).
Proof.
  split; [|split].
  - apply (validateHas_key_absent node_globals resolves_none
             "v1.projects.resolve" "project" (VObj 1) 3 (VObj 9) sample_world
             VUndefined (VObj 4) (VObj 5) VUndefined); reflexivity.
  - apply (proj2 (validateHas_key_absent node_globals resolves_none
                    "v1.accounts.resolve" "owner" (VObj 1) 3 (VObj 9) sample_world
                    VUndefined (VObj 4) (VObj 5) (VObj 7)
                    eq_refl eq_refl eq_refl eq_refl eq_refl)
             (VBool true)); reflexivity.
  - apply (proj2 (validateHas_key_absent node_globals resolves_none
                    "v1.domains.resolve" "domain" (VObj 1) 3 (VObj 9) sample_world
                    VUndefined (VObj 4) (VObj 5) (VObj 6)
                    eq_refl eq_refl eq_refl eq_refl eq_refl)
             VUndefined); reflexivity.
Defined.



(** The same refusal as above once the class is installed globally. *)
Lemma validateHas_denied_with_class_witness :
  validateHas patched_globals resolves_none "v1.domains.resolve" "domain"
    (VObj 1) (VObj 3) (VObj 2) sample_world
  = (Throw (ClientError "You have no right for the domain 'd1'" 403
              "ERR_NO_PERMISSION" (DObj [("domain", DVal (VStr "d1"))])),
     World sample_heap [("v1.domains.resolve", VStr "d1")]).
Proof.
  apply (validateHas_denied_with_class patched_globals resolves_none
           "v1.domains.resolve" "domain" (VObj 1) 3 (VObj 2) sample_world
           (VStr "d1") VNull); reflexivity.
Defined.

(** The required [domain] missing from empty request parameters, with
    the class installed. *)
Lemma validateHas_required_with_class_witness :
  validateHas patched_globals resolves_none "v1.domains.resolve" "domain"
    (VObj 1) (VObj 3) (VObj 9) sample_world
  = (Throw (ClientError "domain is required" 422 "VALIDATION_ERROR"
              (DArr [DObj [("type", DVal (VStr "required"));
                           ("field", DVal (VStr "domain"))]])),
     sample_world).
Proof.
  apply (validateHas_required_with_class patched_globals resolves_none
           "v1.domains.resolve" "domain" (VObj 1) 3 (VObj 9) sample_world
           VUndefined (VObj 4) (VObj 5) (VObj 6) VUndefined); reflexivity.
Defined.

(** *** What a call can change, and how it fails *)
Section Edges.

Variable globals : gmap string class.
Variable broker : string → value → completion value.

Lemma read_set_prop_other h l key v o k :
  o ≠ VObj l ∨ k ≠ key →
  read (<[l := <[key := v]> (default ∅ (h !! l))]> h) o k = read h o k.
Proof.
  intros Hother. destruct o as [| | | | |l']; try done. cbn [read].
  destruct (decide (l' = l)) as [->|Hl].
  - destruct Hother as [?|Hk]; [done|].
    rewrite lookup_insert_eq. cbn. rewrite lookup_insert_ne by done.
    by destruct (h !! l).
  - by rewrite lookup_insert_ne.
Qed.

Lemma own_property_set_prop_other h q key v l k :
  VObj l ≠ VObj q ∨ k ≠ key →
  own_property (<[q := <[key := v]> (default ∅ (h !! q))]> h) l k = own_property h l k.
Proof.
  intros Hother. unfold own_property.
  destruct (decide (l = q)) as [->|Hl].
  - destruct Hother as [?|Hk]; [done|].
    rewrite lookup_insert_eq. cbn. rewrite lookup_insert_ne by done.
    by destruct (h !! q).
  - by rewrite lookup_insert_ne.
Qed.

(** For a key other than [__proto__], whatever the other arguments and
    however the call ends, [validateHas] writes no own property but
    [query[key]]: every other own property of every object is as
    before. It makes at most one broker call, to [caller] with the
    truthy [params[key]]. *)
Lemma validateHas_frame caller key query ctx params w :
  key ≠ "__proto__" →
  (∀ l k, VObj l ≠ query ∨ k ≠ key →
     own_property (heap (snd (validateHas globals broker caller key query ctx params w)))
       l k
     = own_property (heap w) l k)
  ∧ (calls (snd (validateHas globals broker caller key query ctx params w)) = calls w
     ∨ ∃ v, read (heap w) params key = Return v ∧ truthy v = true
            ∧ calls (snd (validateHas globals broker caller key query ctx params w))
              = calls w ++ [(caller, v)]).
Proof.
  intros Hkey%String.eqb_neq.
  unfold validateHas, mbind, ST_bind, mret, ST_ret, get_prop, ctx_call, set_prop,
    resolve, throw.
  destruct (truthy ctx); cbn [negb]; [|by auto].
  destruct (read (heap w) params key) as [pk|e] eqn:Hpk; [|by auto].
  destruct (truthy pk) eqn:Htruthy.
  - rewrite Hpk. destruct ctx as [| | | | |c]; try by auto.
    assert (∀ (r : completion value) h,
              (∀ l k, VObj l ≠ query ∨ k ≠ key →
                 own_property h l k = own_property (heap w) l k) →
              (∀ l k, VObj l ≠ query ∨ k ≠ key →
                 own_property (heap (snd (r, World h (calls w ++ [(caller, pk)])))) l k
                 = own_property (heap w) l k)
              ∧ (calls (snd (r, World h (calls w ++ [(caller, pk)]))) = calls w
                 ∨ ∃ v, Return pk = Return v ∧ truthy v = true
                        ∧ calls (snd (r, World h (calls w ++ [(caller, pk)])))
                          = calls w ++ [(caller, v)])) as Hcalled.
    { intros r h Hh. split; [done|]. right. by exists pk. }
    destruct (broker caller pk) as [res|e]; cbn [heap calls]; [|by apply Hcalled].
    destruct (truthy res); cbn [heap calls]; rewrite ?Hpk.
    + destruct query as [| | | | |q]; cbn [heap calls]; rewrite ?Hkey; cbn [negb];
        try by apply Hcalled.
      apply Hcalled. intros l k Hother. by apply own_property_set_prop_other.
    + destruct (globals !! "MoleculerClientError"); cbn [heap calls]; rewrite ?Hpk;
        by apply Hcalled.
  - repeat match goal with
           | |- context [match read ?h ?o ?k with _ => _ end] =>
               destruct (read h o k) as [?|?]; [|by cbn; auto]
           | |- context [if truthy ?v then _ else _] => destruct (truthy v); cbn [negb]
           | |- context [if negb (truthy ?v) then _ else _] =>
               destruct (truthy v); cbn [negb]
           | |- context [match globals !! ?x with _ => _ end] => destruct (globals !! x)
           end; cbn; auto.
Qed.

(** A lookup that is rejected rejects [validateHas] with the same
    error: the call was logged, the query is untouched. *)
Lemma validateHas_lookup_fails caller key query c params w v e :
  read (heap w) params key = Return v →
  truthy v = true →
  broker caller v = Throw e →
  validateHas globals broker caller key query (VObj c) params w
  = (Throw e, World (heap w) (calls w ++ [(caller, v)])).
Proof. intros. by run. Qed.

(** With a context but no request parameters ([null] or [undefined])
    the first read of [params[key]] is a [TypeError]; nothing is called
    or written. *)
Lemma validateHas_without_params caller key query ctx params w :
  truthy ctx = true →
  nullish params = true →
  ∃ message,
    validateHas globals broker caller key query ctx params w
    = (Throw (TypeError message), w).
Proof.
  intros Hctx Hparams. unfold validateHas. rewrite Hctx. cbn [negb].
  destruct params; try done; by eexists.
Qed.

(** A granted lookup with a query that is not an object: for a query
    that is [null] or [undefined], and for a primitive query unless
    the key is [__proto__], the assignment [query[key] = ...] is a
    [TypeError] in strict mode, after the call was made. *)
Lemma validateHas_query_not_object caller key query c params w v res :
  read (heap w) params key = Return v →
  truthy v = true →
  broker caller v = Return res →
  truthy res = true →
  (∀ q, query ≠ VObj q) →
  nullish query = true ∨ key ≠ "__proto__" →
  ∃ message,
    validateHas globals broker caller key query (VObj c) params w
    = (Throw (TypeError message), World (heap w) (calls w ++ [(caller, v)])).
Proof.
  intros Hread Hv Hcall Hres Hquery Hkey.
  destruct query as [| | | | |q]; try (eexists; by run);
    try (destruct Hkey as [?|Hkey%String.eqb_neq]; [done|]; eexists; by run).
  by destruct (Hquery q).
Qed.

(** The exception: on a primitive query the key [__proto__] reaches
    the setter of [Object.prototype], which returns without writing,
    and the primitive comes back as the result. *)
Lemma validateHas_primitive_query_proto caller query c params w v res :
  read (heap w) params "__proto__" = Return v →
  truthy v = true →
  broker caller v = Return res →
  truthy res = true →
  (∀ q, query ≠ VObj q) →
  nullish query = false →
  validateHas globals broker caller "__proto__" query (VObj c) params w
  = (Return query, World (heap w) (calls w ++ [(caller, v)])).
Proof.
  intros Hread Hv Hcall Hres Hquery Hprimitive.
  destruct query as [| | | | |q]; try done; try by run.
  by destruct (Hquery q).
Qed.

(** With [params[key]] falsy the schema of the action is read without
    a check that it is there: a context whose action is missing, or
    whose action declares no [params], ends in a [TypeError]. Nothing is
    called or written. *)
Lemma validateHas_without_schema caller key query c params w pk action :
  read (heap w) params key = Return pk →
  truthy pk = false →
  read (heap w) (VObj c) "action" = Return action →
  (nullish action = true
   ∨ ∃ schema, read (heap w) action "params" = Return schema ∧ nullish schema = true) →
  ∃ message,
    validateHas globals broker caller key query (VObj c) params w
    = (Throw (TypeError message), w).
Proof.
  intros Hread Hpk Haction [Hnone|(schema & Hschema & Hnone)].
  - destruct action; try done; eexists; by run.
  - destruct schema; try done; eexists; by run.
Qed.

(** Two granted checks on the same query, for two different keys
    other than [__proto__], one after the other: the query comes back
    with both keys set, the first one still as the first check wrote
    it, and the two lookups were made in that order. *)
Lemma validateHas_twice caller1 caller2 key1 key2 q c params w v1 v2 res1 res2 :
  key1 ≠ "__proto__" →
  key2 ≠ "__proto__" →
  key1 ≠ key2 →
  read (heap w) params key1 = Return v1 →
  truthy v1 = true →
  broker caller1 v1 = Return res1 →
  truthy res1 = true →
  read (heap w) params key2 = Return v2 →
  truthy v2 = true →
  broker caller2 v2 = Return res2 →
  truthy res2 = true →
  ∃ w1 w2,
    validateHas globals broker caller1 key1 (VObj q) (VObj c) params w
    = (Return (VObj q), w1)
    ∧ validateHas globals broker caller2 key2 (VObj q) (VObj c) params w1
      = (Return (VObj q), w2)
    ∧ read (heap w2) (VObj q) key1 = Return v1
    ∧ read (heap w2) (VObj q) key2 = Return v2
    ∧ calls w2 = calls w ++ [(caller1, v1); (caller2, v2)].
Proof.
  intros Hkey1%String.eqb_neq Hkey2%String.eqb_neq Hne
    Hread1 Hv1 Hcall1 Hres1 Hread2 Hv2 Hcall2 Hres2.
  eexists _, _. split; [by run|].
  assert (read (<[q := <[key1 := v1]> (default ∅ (heap w !! q))]> (heap w)) params key2
          = Return v2) as Hread2'.
  { rewrite read_set_prop_other; [done|by right]. }
  split; [by run|].
  cbn [heap calls]. split; [|split].
  - rewrite read_set_prop_other by (by right).
    cbn [read]. by rewrite lookup_insert_eq; cbn; rewrite lookup_insert_eq.
  - cbn [read]. by rewrite lookup_insert_eq; cbn; rewrite lookup_insert_eq.
  - by rewrite <-app_assoc.
Qed.

End Edges.

(** On the sample store, with the broker that resolves every id: only
    [query.domain] can have changed. *)
Lemma validateHas_frame_witness :
  own_property
    (heap (snd (validateHas node_globals resolves_all "v1.domains.resolve"
                  "domain" (VObj 1) (VObj 3) (VObj 2) sample_world)))
    1 "status"
  = Some (VStr "active").
Proof.
  etrans.
  - apply (proj1 (validateHas_frame node_globals resolves_all "v1.domains.resolve"
                    "domain" (VObj 1) (VObj 3) (VObj 2) sample_world ltac:(done))).
    by right.
  - reflexivity.
Defined.

(** The id ["d1"] looked up while the domains service is away. *)
Lemma validateHas_lookup_fails_witness :
  validateHas node_globals unreachable "v1.domains.resolve" "domain"
    (VObj 1) (VObj 3) (VObj 2) sample_world
  = (Throw (Rejection (VStr "Service not found")),
     World sample_heap [("v1.domains.resolve", VStr "d1")]).
Proof.
  apply (validateHas_lookup_fails node_globals unreachable "v1.domains.resolve"
           "domain" (VObj 1) 3 (VObj 2) sample_world (VStr "d1")); reflexivity.
Defined.

(** A call with a context and [undefined] in place of the parameters. *)
Lemma validateHas_without_params_witness :
  ∃ message,
    validateHas node_globals resolves_all "v1.domains.resolve" "domain"
      (VObj 1) (VObj 3) VUndefined sample_world
    = (Throw (TypeError message), sample_world).
Proof.
  apply (validateHas_without_params node_globals resolves_all); reflexivity.
Defined.

(** The id ["d1"] granted, with [null] handed over as the query. *)
Lemma validateHas_query_not_object_witness :
  ∃ message,
    validateHas node_globals resolves_all "v1.domains.resolve" "domain"
      VNull (VObj 3) (VObj 2) sample_world
    = (Throw (TypeError message),
       World sample_heap [("v1.domains.resolve", VStr "d1")]).
Proof.
  apply (validateHas_query_not_object node_globals resolves_all "v1.domains.resolve"
           "domain" VNull 3 (VObj 2) sample_world (VStr "d1") (VObj 8));
    reflexivity || done || by left.
Defined.

(** Empty request parameters and, as the context, the action object
    of the sample store (address 4), which has no [action] of its own. *)
Lemma validateHas_without_schema_witness :
  ∃ message,
    validateHas node_globals resolves_all "v1.domains.resolve" "domain"
      (VObj 1) (VObj 4) (VObj 9) sample_world
    = (Throw (TypeError message), sample_world).
Proof.
  apply (validateHas_without_schema node_globals resolves_all "v1.domains.resolve"
           "domain" (VObj 1) 4 (VObj 9) sample_world VUndefined VUndefined);
    try reflexivity.
  by left.
Defined.

(** A request that names a domain and an owner, both resolved. *)
Lemma validateHas_twice_witness :
  ∃ w1 w2,
    validateHas node_globals resolves_all "v1.domains.resolve" "domain"
      (VObj 1) (VObj 3) (VObj 10) two_keys_world
    = (Return (VObj 1), w1)
    ∧ validateHas node_globals resolves_all "v1.accounts.resolve" "owner"
        (VObj 1) (VObj 3) (VObj 10) w1
      = (Return (VObj 1), w2)
    ∧ read (heap w2) (VObj 1) "domain" = Return (VStr "d1")
    ∧ read (heap w2) (VObj 1) "owner" = Return (VStr "u7")
    ∧ calls w2 = calls two_keys_world
                 ++ [("v1.domains.resolve", VStr "d1"); ("v1.accounts.resolve", VStr "u7")].
Proof.
  apply (validateHas_twice node_globals resolves_all "v1.domains.resolve"
           "v1.accounts.resolve" "domain" "owner" 1 3 (VObj 10) two_keys_world
           (VStr "d1") (VStr "u7") (VObj 8) (VObj 8)); reflexivity || done.
Defined.

End ValidateHasFacts.

(** ** The hashids library decodes what it encoded *)
Module HashidsFacts.

Import Hashids.

(** *** The shuffle permutes *)

Lemma swap_Permutation t i j : swap t i j ≡ₚ t.
Proof.
  unfold swap.
  destruct (t !! i) as [a|] eqn:Hi; [|done].
  destruct (t !! j) as [b|] eqn:Hj; [|done].
  by apply Permutation_insert_swap.
Qed.

Lemma shuffle_from_Permutation salt i v p t : shuffle_from salt i v p t ≡ₚ t.
Proof.
  revert v p t. induction i as [|i IH]; intros v p t; [done|].
  cbn [shuffle_from]. rewrite IH. apply swap_Permutation.
Qed.

Lemma shuffle_Permutation a salt : shuffle a salt ≡ₚ a.
Proof. destruct salt; [done|]. apply shuffle_from_Permutation. Qed.

Lemma shuffle_length a salt : length (shuffle a salt) = length a.
Proof. apply Permutation_length, shuffle_Permutation. Qed.

Lemma shuffle_NoDup a salt : NoDup a → NoDup (shuffle a salt).
Proof. intros. by rewrite shuffle_Permutation. Qed.

Lemma shuffle_elem_of a salt c : c ∈ shuffle a salt ↔ c ∈ a.
Proof. by rewrite shuffle_Permutation. Qed.

(** Only the first [length a] characters of the salt are read. *)
Lemma shuffle_from_take salt (n i : nat) v p t :
  (n ≤ length salt)%nat →
  (N.to_nat v + i < n)%nat →
  shuffle_from salt i v p t = shuffle_from (take n salt) i v p t.
Proof.
  intros Hn. revert v p t. induction i as [|i IH]; intros v p t Hv; [done|].
  cbn [shuffle_from].
  rewrite length_take, (Nat.min_l n) by done.
  rewrite (N.mod_small v (N.of_nat (length salt))),
    (N.mod_small v (N.of_nat n)) by lia.
  rewrite !nth_lookup, lookup_take_lt by lia.
  apply IH. lia.
Qed.

Lemma shuffle_take a salt :
  (length a ≤ length salt)%nat →
  shuffle a salt = shuffle a (take (length a) salt).
Proof.
  intros Hlen. destruct a as [|c a].
  - by destruct salt.
  - destruct salt as [|s salt]; [done|].
    cbn [length take shuffle].
    apply (shuffle_from_take (s :: salt) (S (length a))); cbn [length] in *; lia.
Qed.

(** *** Writing a number in an alphabet and reading it back *)

Lemma index_of_lookup A i c :
  NoDup A → A !! i = Some c → index_of c A = Some i.
Proof.
  intros Hnodup. revert i. induction Hnodup as [|x A Hx Hnodup IH]; intros i; [done|].
  cbn [index_of]. destruct i as [|i]; cbn.
  - intros [= ->]. by rewrite Ascii.eqb_refl.
  - intros Hc. destruct (Ascii.eqb_spec c x) as [->|_].
    + destruct Hx. by eapply list_elem_of_lookup_2.
    + by rewrite (IH i Hc).
Qed.

Lemma index_of_Some A c i : index_of c A = Some i → A !! i = Some c.
Proof.
  revert i. induction A as [|x A IH]; intros i; [done|].
  cbn [index_of]. destruct (Ascii.eqb_spec c x) as [->|_].
  - by intros [= <-].
  - destruct (index_of c A) as [k|]; [|done]. intros [= <-]. by apply IH.
Qed.

Lemma index_of_nth A (i : nat) :
  NoDup A → (i < length A)%nat → index_of (nth i A nul) A = Some i.
Proof.
  intros Hnodup Hi. apply index_of_lookup; [done|].
  destruct (nth_lookup_or_length A i nul); [done|lia].
Qed.

Lemma fromAlphabet_fold input A : fromAlphabet input A = foldl (read_digit A) (Some 0%N) input.
Proof. reflexivity. Qed.

Lemma toAlphabet_from_read A fuel value id :
  NoDup A →
  (2 ≤ length A)%nat →
  (value < 2 ^ N.of_nat fuel)%N →
  (0 < fuel)%nat →
  foldl (read_digit A) (Some 0%N) (toAlphabet_from fuel value A id)
  = foldl (read_digit A) (Some value) id.
Proof.
  intros Hnodup Hlen. revert value id.
  induction fuel as [|fuel IH]; intros value id Hvalue Hfuel; [lia|].
  cbn [toAlphabet_from].
  set (n := N.of_nat (length A)).
  assert (2 ≤ n)%N as Hn by lia.
  assert (N.to_nat (value `mod` n) < length A)%nat as Hdigit.
  { pose proof (N.mod_lt value n). lia. }
  destruct (0 <? value `div` n)%N eqn:Hrest.
  - apply N.ltb_lt in Hrest.
    assert (value `div` n < 2 ^ N.of_nat fuel)%N as Hless.
    { apply N.Div0.div_lt_upper_bound.
      rewrite Nat2N.inj_succ, N.pow_succ_r' in Hvalue. nia. }
    assert (0 < fuel)%nat.
    { destruct fuel; [|lia]. cbn in Hless. lia. }
    rewrite IH by done. cbn [foldl]. unfold read_digit at 2. cbn [mbind option_bind].
    rewrite index_of_nth by done. cbn [mbind option_bind]. fold n.
    rewrite N2Nat.id. f_equal. f_equal.
    rewrite N.mul_comm. symmetry. apply N.div_mod. lia.
  - apply N.ltb_ge, N.le_0_r in Hrest.
    apply N.div_small_iff in Hrest; [|lia].
    cbn [foldl]. unfold read_digit at 2. cbn [mbind option_bind].
    rewrite index_of_nth by done. cbn [mbind option_bind]. fold n.
    by rewrite N2Nat.id, N.mod_small.
Qed.

Lemma log2_fuel value : (value < 2 ^ N.of_nat (S (N.to_nat (N.log2 value))))%N.
Proof.
  rewrite Nat2N.inj_succ, N2Nat.id.
  destruct (N.eq_dec value 0%N) as [->|]; [done|].
  apply N.log2_spec. lia.
Qed.

Lemma fromAlphabet_toAlphabet A value :
  NoDup A → (2 ≤ length A)%nat → fromAlphabet (toAlphabet value A) A = Some value.
Proof.
  intros Hnodup Hlen. rewrite fromAlphabet_fold. unfold toAlphabet.
  rewrite toAlphabet_from_read; [done..|apply log2_fuel|lia].
Qed.

Lemma toAlphabet_from_elem_of A fuel value id c :
  (0 < length A)%nat →
  c ∈ toAlphabet_from fuel value A id → c ∈ A ∨ c ∈ id.
Proof.
  intros Hlen. revert value id.
  induction fuel as [|fuel IH]; intros value id; cbn [toAlphabet_from]; [by right|].
  assert (nth (N.to_nat (value `mod` N.of_nat (length A))) A nul ∈ A) as Hdigit.
  { apply list_elem_of_In, nth_In.
    pose proof (N.mod_lt value (N.of_nat (length A))). lia. }
  destruct (0 <? _)%N.
  - intros [?|[->|?]%elem_of_cons]%IH; auto.
  - intros [->|?]%elem_of_cons; auto.
Qed.

Lemma toAlphabet_elem_of A value c :
  (0 < length A)%nat → c ∈ toAlphabet value A → c ∈ A.
Proof.
  intros Hlen [?|[]%elem_of_nil]%toAlphabet_from_elem_of; done.
Qed.

Lemma toAlphabet_from_nonempty A fuel value id :
  (0 < fuel)%nat → toAlphabet_from fuel value A id ≠ [].
Proof.
  revert value id. induction fuel as [|fuel IH]; intros value id Hfuel; [lia|].
  cbn [toAlphabet_from]. destruct (0 <? _)%N eqn:Hrest; [|done].
  destruct fuel; [done|]. apply IH. lia.
Qed.

Lemma toAlphabet_nonempty A value : toAlphabet value A ≠ [].
Proof. apply toAlphabet_from_nonempty. lia. Qed.

(** *** Splitting at separators *)

Lemma split_no_separator separators s :
  (∀ c, c ∈ s → c ∉ separators) → split separators s = [s].
Proof.
  induction s as [|c s IH]; intros Hs; [done|].
  cbn [split]. rewrite bool_decide_eq_false_2 by (apply Hs; left).
  rewrite IH; [done|]. intros c' ?. apply Hs. by right.
Qed.

Lemma split_at_separator separators s1 c s2 :
  (∀ c, c ∈ s1 → c ∉ separators) →
  c ∈ separators →
  split separators (s1 ++ c :: s2) = s1 :: split separators s2.
Proof.
  intros Hs1 Hc. induction s1 as [|c1 s1 IH]; cbn [app split].
  - by rewrite bool_decide_eq_true_2.
  - rewrite bool_decide_eq_false_2 by (apply Hs1; left).
    rewrite IH; [done|]. intros c' ?. apply Hs1. by right.
Qed.

(** *** Decoding what was encoded *)

Section Roundtrip.

Variable h : t.
Hypothesis Hwf : wf h.

Lemma separator_elem_of (n : N) :
  nth (N.to_nat (n `mod` N.of_nat (length (seps h)))) (seps h) nul ∈ seps h.
Proof.
  apply list_elem_of_In, nth_In.
  pose proof (wf_seps h Hwf). destruct (seps h) as [|? ?] eqn:E; [done|].
  pose proof (N.mod_lt n (N.of_nat (length (a :: l)))). cbn [length] in *. lia.
Qed.

Lemma encode_from_elem_of lottery i A numbers c :
  A ≡ₚ alphabet h →
  c ∈ encode_from h lottery i A numbers → c ∈ alphabet h ∨ c ∈ seps h.
Proof.
  revert i A. induction numbers as [|number rest IH]; intros i A HA; cbn [encode_from].
  - by intros ?%elem_of_nil.
  - assert (shuffle A (lottery :: salt h ++ A) ≡ₚ alphabet h) as HA'
      by (by rewrite shuffle_Permutation).
    rewrite !elem_of_app. intros [Hc|[Hc|Hc]].
    + left. rewrite <-HA'. eapply toAlphabet_elem_of; [|done].
      rewrite (Permutation_length HA'). pose proof (wf_size h Hwf). lia.
    + right. destruct rest; [by apply elem_of_nil in Hc|].
      apply list_elem_of_singleton in Hc as ->. apply separator_elem_of.
    + by eapply IH.
Qed.

Lemma decode_from_encode_from lottery i A numbers :
  A ≡ₚ alphabet h →
  numbers ≠ [] →
  decode_from h lottery A (split (seps h) (encode_from h lottery i A numbers))
  = Some numbers.
Proof.
  revert i A. induction numbers as [|number rest IH]; intros i A HA Hne; [done|].
  cbn [encode_from].
  set (A' := shuffle A (lottery :: salt h ++ A)).
  assert (A' ≡ₚ alphabet h) as HA' by (unfold A'; by rewrite shuffle_Permutation).
  assert (shuffle A (take (length A) (lottery :: salt h ++ A)) = A') as Htake.
  { symmetry. apply shuffle_take. cbn [length]. rewrite length_app. lia. }
  assert (fromAlphabet (toAlphabet number A') A' = Some number) as Hread.
  { apply fromAlphabet_toAlphabet.
    - rewrite HA'. apply Hwf.
    - rewrite (Permutation_length HA'). apply Hwf. }
  assert (∀ c, c ∈ toAlphabet number A' → c ∉ seps h) as Hdigits.
  { intros c Hc. apply (wf_alphabet_seps h Hwf). rewrite <-HA'.
    eapply toAlphabet_elem_of; [|done].
    rewrite (Permutation_length HA'). pose proof (wf_size h Hwf). lia. }
  destruct rest as [|next rest].
  - cbn [encode_from]. rewrite !app_nil_r, split_no_separator by done.
    cbn [decode_from]. rewrite Htake, Hread. done.
  - change (?l ++ [?c] ++ ?k) with (l ++ c :: k).
    rewrite split_at_separator by (done || apply separator_elem_of).
    cbn [decode_from]. rewrite Htake, Hread. cbn [mbind option_bind].
    by rewrite (IH _ _ HA').
Qed.

Lemma lottery_elem_of (n : N) :
  nth (N.to_nat (n `mod` N.of_nat (length (alphabet h)))) (alphabet h) nul ∈ alphabet h.
Proof.
  apply list_elem_of_In, nth_In.
  pose proof (wf_size h Hwf).
  pose proof (N.mod_lt n (N.of_nat (length (alphabet h)))). lia.
Qed.

Lemma encode_chars_elem_of numbers c :
  c ∈ _encode h numbers → c ∈ alphabet h ∨ c ∈ seps h.
Proof.
  unfold _encode. intros [->|Hc]%elem_of_cons.
  - left. apply lottery_elem_of.
  - by eapply encode_from_elem_of.
Qed.

Lemma decode_encode_numbers numbers :
  numbers ≠ [] → _decode h (_encode h numbers) = Numbers numbers.
Proof.
  intros Hne. unfold _decode.
  assert (isValidId h (_encode h numbers) = true) as ->.
  { apply forallb_forall. intros c Hc%list_elem_of_In. apply bool_decide_eq_true.
    rewrite !elem_of_app. destruct (encode_chars_elem_of _ _ Hc); auto. }
  cbn [negb].
  rewrite split_no_separator.
  2:{ intros c [?|?]%encode_chars_elem_of.
      - by apply (wf_alphabet_guards h Hwf).
      - by apply (wf_seps_guards h Hwf). }
  cbn [length Nat.eqb orb nth].
  unfold _encode at 1. cbn zeta.
  rewrite decode_from_encode_from by done.
  by rewrite bool_decide_eq_true_2.
Qed.

End Roundtrip.

(** *** The instance built from a salt *)

Lemma HashIds_fields saltS :
  HashIds saltS
  = {| salt := chars saltS;
       alphabet := drop 4 (shuffle letters (chars saltS));
       seps := shuffle separators (chars saltS);
       guards := take 4 (shuffle letters (chars saltS)) |}.
Proof.
  unfold HashIds, create.
  change (withoutChars (keepUnique (chars _)) (chars "cfhistuCFHISTU"))
    with letters.
  change (onlyChars (chars "cfhistuCFHISTU") (keepUnique (chars _)))
    with separators.
  cbv zeta. rewrite !shuffle_length.
  change (length separators) with 14%nat. change (length letters) with 48%nat.
  change ((14 =? 0)%nat || (7 * 14 <? 2 * 48)%nat) with false. cbv iota beta.
  rewrite !shuffle_length. change (length letters) with 48%nat.
  reflexivity.
Qed.

Lemma letters_NoDup : NoDup letters.
Proof. apply (bool_decide_unpack _). by vm_compute. Qed.

Lemma letters_separators c : c ∈ letters → c ∉ separators.
Proof.
  revert c. apply Forall_forall. apply (bool_decide_unpack _). by vm_compute.
Qed.

Lemma HashIds_wf saltS : wf (HashIds saltS).
Proof.
  rewrite HashIds_fields.
  pose proof (shuffle_NoDup letters (chars saltS) letters_NoDup) as Hnodup.
  rewrite <-(take_drop 4 (shuffle letters (chars saltS))) in Hnodup.
  apply NoDup_app in Hnodup as (Htake & Hdisjoint & Hdrop).
  split; cbn [alphabet seps guards].
  - done.
  - rewrite length_drop, shuffle_length. cbn. lia.
  - intros Hnil%(f_equal length). by rewrite shuffle_length in Hnil.
  - intros c Hc Hsep. apply shuffle_elem_of in Hsep.
    apply (letters_separators c); [|done].
    apply (shuffle_elem_of letters (chars saltS)).
    eapply elem_of_sublist; [exact Hc|apply sublist_drop].
  - intros c Hc Hguard. by apply (Hdisjoint c).
  - intros c Hsep Hguard. apply shuffle_elem_of in Hsep.
    apply (letters_separators c); [|done].
    apply (shuffle_elem_of letters (chars saltS)).
    eapply elem_of_sublist; [exact Hguard|apply sublist_take].
Qed.

(** *** Hexadecimal strings *)

Lemma lower_hex_value c :
  Methods.is_lower_hex_digit c = true →
  ∃ v, hexValue c = Some v ∧ (v < 16)%N ∧ nth (N.to_nat v) hexDigits nul = c
       ∧ (c ≠ "0"%char → (0 < v)%N).
Proof.
  destruct c as [[] [] [] [] [] [] [] []]; try discriminate; intros _;
    (eexists; split; [reflexivity|]; split; [done|]; split; [reflexivity|];
     intros Hne; first [done | by destruct Hne]).
Qed.

Lemma parseInt16_snoc l c :
  parseInt16 (l ++ [c]) = (parseInt16 l * 16 + default 0 (hexValue c))%N.
Proof. unfold parseInt16. by rewrite foldl_app. Qed.

Lemma hd_snoc (l : list ascii) c : l ≠ [] → hd nul (l ++ [c]) = hd nul l.
Proof. by destruct l. Qed.

Lemma parseInt16_pos l :
  l ≠ [] → Forall (λ c, Methods.is_lower_hex_digit c = true) l → hd nul l ≠ "0"%char →
  (0 < parseInt16 l)%N.
Proof.
  induction l as [|c l IH] using rev_ind; [done|].
  intros _ [Hl Hc%Forall_inv]%Forall_app Hhd. rewrite parseInt16_snoc.
  destruct (lower_hex_value c Hc) as (v & -> & _ & _ & Hpos). cbn [default from_option Datatypes.id].
  destruct l as [|c' l']; [cbn in *; auto|].
  rewrite hd_snoc in Hhd by done.
  pose proof (IH ltac:(done) Hl Hhd). lia.
Qed.

Lemma toAlphabet_from_hex l fuel id :
  l ≠ [] → Forall (λ c, Methods.is_lower_hex_digit c = true) l → hd nul l ≠ "0"%char →
  (parseInt16 l < 2 ^ N.of_nat fuel)%N →
  toAlphabet_from fuel (parseInt16 l) hexDigits id = l ++ id.
Proof.
  revert fuel id. induction l as [|c l IH] using rev_ind; [done|].
  intros fuel id _ [Hl Hc%Forall_inv]%Forall_app Hhd Hfuel.
  assert (l ++ [c] ≠ []) as Hne by (by intros [_ ?]%app_eq_nil).
  assert (Forall (λ c, Methods.is_lower_hex_digit c = true) (l ++ [c])) as Hall
    by (apply Forall_app; auto).
  pose proof (parseInt16_pos (l ++ [c]) Hne Hall Hhd) as Hpos.
  rewrite parseInt16_snoc in *.
  destruct (lower_hex_value c Hc) as (v & Hv & Hlt & Hnth & _).
  rewrite Hv in *. cbn [default from_option Datatypes.id] in *.
  destruct fuel as [|fuel];
    [change (2 ^ N.of_nat 0)%N with 1%N in Hfuel; lia|].
  cbn [toAlphabet_from]. cbv zeta. change (N.of_nat (length hexDigits)) with 16%N.
  replace ((parseInt16 l * 16 + v) `mod` 16)%N with v
    by (rewrite N.add_comm, N.Div0.mod_add, N.mod_small; done).
  replace ((parseInt16 l * 16 + v) `div` 16)%N with (parseInt16 l)
    by (rewrite N.div_add_l, (N.div_small v) by done; lia).
  rewrite Hnth, <-app_assoc. cbn [app].
  destruct l as [|c' l']; [done|].
  rewrite hd_snoc in Hhd by done.
  pose proof (parseInt16_pos (c' :: l') ltac:(done) Hl Hhd) as Hpos'.
  apply N.ltb_lt in Hpos' as ->.
  apply IH; [done..|].
  rewrite Nat2N.inj_succ, N.pow_succ_r' in Hfuel. lia.
Qed.

Lemma toString16_parseInt16 l :
  l ≠ [] → Forall (λ c, Methods.is_lower_hex_digit c = true) l → hd nul l ≠ "0"%char →
  toString16 (parseInt16 l) = l.
Proof.
  intros. unfold toString16, toAlphabet.
  rewrite toAlphabet_from_hex by (done || apply log2_fuel). apply app_nil_r.
Qed.

Lemma parseInt16_bound l :
  Forall (λ c, Methods.is_lower_hex_digit c = true) l → (parseInt16 l < 16 ^ N.of_nat (length l))%N.
Proof.
  induction l as [|c l IH] using rev_ind; [done|].
  intros [Hl Hc%Forall_inv]%Forall_app.
  rewrite parseInt16_snoc, length_app, Nat.add_1_r, Nat2N.inj_succ, N.pow_succ_r'.
  destruct (lower_hex_value c Hc) as (v & -> & Hlt & _). cbn [default from_option Datatypes.id].
  specialize (IH Hl). lia.
Qed.

Lemma splitAtInterval_concat fuel l (n : nat) :
  (0 < n)%nat → (length l ≤ fuel)%nat → concat (splitAtInterval fuel l n) = l.
Proof.
  intros Hn. revert l. induction fuel as [|fuel IH]; intros [|c l] Hlen; try done.
  - cbn in Hlen. lia.
  - cbn [splitAtInterval concat]. rewrite IH, take_drop; [done|].
    rewrite length_drop. cbn [length] in *. lia.
Qed.

Lemma splitAtInterval_nonempty fuel l (n : nat) :
  l ≠ [] → (0 < fuel)%nat → splitAtInterval fuel l n ≠ [].
Proof. destruct fuel, l; done || lia. Qed.

Lemma splitAtInterval_elem_of fuel l (n : nat) part :
  part ∈ splitAtInterval fuel l n → (length part ≤ n)%nat ∧ ∀ c, c ∈ part → c ∈ l.
Proof.
  revert l. induction fuel as [|fuel IH]; intros [|c l]; cbn [splitAtInterval];
    try by intros ?%elem_of_nil.
  intros [->|Hpart]%elem_of_cons.
  - split; [rewrite length_take; lia|].
    intros c' Hc'. eapply elem_of_sublist; [done|apply sublist_take].
  - destruct (IH _ Hpart) as [? Hsub]. split; [done|].
    intros c' Hc'. eapply elem_of_sublist; [by apply Hsub|apply sublist_drop].
Qed.

Lemma lower_hex_isHex l :
  l ≠ [] → Forall (λ c, Methods.is_lower_hex_digit c = true) l → isHex l = true.
Proof.
  intros Hne Hl. unfold isHex. rewrite bool_decide_eq_false_2 by done. cbn [negb andb].
  apply forallb_forall. intros c Hc%list_elem_of_In. apply bool_decide_eq_true.
  rewrite Forall_forall in Hl.
  destruct (lower_hex_value c (Hl c Hc)) as (v & -> & _). by eexists.
Qed.

(** Every number [encodeHex] hands to [encode] is below [2 ^ 53]: the
    arithmetic on it is exact in the original. *)
Lemma encodeHex_numbers_safe l part :
  Forall (λ c, Methods.is_lower_hex_digit c = true) l →
  part ∈ splitAtInterval (length l) l 12 →
  (parseInt16 ("1"%char :: part) < 2 ^ 53)%N.
Proof.
  intros Hl [Hlen Hsub]%splitAtInterval_elem_of.
  assert (Forall (λ c, Methods.is_lower_hex_digit c = true) ("1"%char :: part)) as Hpart.
  { apply Forall_cons. split; [done|]. rewrite Forall_forall in Hl.
    apply Forall_forall. auto. }
  pose proof (parseInt16_bound _ Hpart) as Hbound. cbn [length] in Hbound.
  assert (16 ^ N.of_nat (S (length part)) ≤ 16 ^ 13)%N
    by (apply N.pow_le_mono_r; lia).
  assert (16 ^ 13 < 2 ^ 53)%N by done. lia.
Qed.

Lemma encode_nonempty h numbers :
  numbers ≠ [] → encode h numbers = join (_encode h numbers).
Proof. by destruct numbers. Qed.

Lemma decode_join h numbers :
  decode h (join (_encode h numbers)) = _decode h (_encode h numbers).
Proof.
  unfold decode, _encode at 1, join at 1. cbn [string_of_list_ascii].
  fold (_encode h numbers).
  unfold chars, join. by rewrite list_ascii_of_string_of_list_ascii.
Qed.

Theorem decodeHex_encodeHex h hex :
  wf h → hex ≠ "" → Forall (λ c, Methods.is_lower_hex_digit c = true) (chars hex) →
  decodeHex h (encodeHex h hex) = Some hex.
Proof.
  intros Hwf Hne Hhex.
  assert (chars hex ≠ []) as Hchars by (by destruct hex).
  unfold encodeHex. rewrite lower_hex_isHex by done. cbn [negb].
  set (parts := splitAtInterval (String.length hex) (chars hex) 12).
  set (numbers := (λ part, parseInt16 ("1"%char :: part)) <$> parts).
  assert (numbers ≠ []) as Hnumbers.
  { unfold numbers, parts. intros Hnil%fmap_nil_inv. revert Hnil.
    apply splitAtInterval_nonempty; [done|]. destruct hex; [done|cbn; lia]. }
  unfold decodeHex.
  rewrite encode_nonempty, decode_join, decode_encode_numbers by done.
  f_equal. unfold numbers. rewrite <-list_fmap_compose.
  rewrite (list_fmap_ext _ id parts); [|intros i part Hpart].
  - rewrite list_fmap_id. unfold parts.
    rewrite splitAtInterval_concat; [apply string_of_list_ascii_of_string|lia|].
    unfold chars. clear. induction hex; cbn; lia.
  - unfold compose. cbn beta. apply list_elem_of_lookup_2 in Hpart.
    destruct (splitAtInterval_elem_of _ _ _ _ Hpart) as [_ Hsub].
    rewrite toString16_parseInt16; [done..| |done].
    apply Forall_cons. split; [done|].
    rewrite Forall_forall in Hhex. apply Forall_forall. auto.
Qed.

End HashidsFacts.

(** ** The id codec *)
Module CodecFacts.

Import Methods Samples.

Lemma hex_digit_lower d : is_lower_hex_digit (hex_digit d) = true.
Proof.
  destruct d as [|p]; [done|].
  do 4 (destruct p as [p|p|]; try done).
Qed.

Lemma toHexString_lower_hex bytes : is_lower_hex (toHexString bytes) = true.
Proof.
  induction bytes as [|b bytes IH]; [done|].
  cbn [toHexString is_lower_hex]. by rewrite !hex_digit_lower, IH.
Qed.

Lemma toHexString_length bytes :
  String.length (toHexString bytes) = (2 * length bytes)%nat.
Proof.
  induction bytes as [|b bytes IH]; [done|].
  cbn [toHexString String.length length]. lia.
Qed.

Lemma toHexString_nonempty bytes : bytes ≠ [] → toHexString bytes ≠ "".
Proof. by destruct bytes. Qed.

Section Facts.

Variable isValid : id_value → bool.
Variable HashIds : option string → hashids.


(** An id the driver does not accept reaches the library as it is. *)
Lemma encodeID_not_normalised h id :
  isValid id = false → encodeID isValid h id = encodeHex h id.
Proof. unfold encodeID. by intros ->. Qed.

(** [decodeID] adds nothing to the library call: it returns or throws
    exactly as [decodeHex] does. *)
Lemma decodeID_is_decodeHex h id : decodeID h id = decodeHex h id.
Proof. reflexivity. Qed.

End Facts.

Lemma is_lower_hex_is_hex s : is_lower_hex s = true → is_hex s = true.
Proof.
  induction s as [|c s IH]; [done|]. cbn [is_lower_hex is_hex].
  intros [Hc Hs]%andb_prop. rewrite IH by done.
  unfold is_lower_hex_digit in Hc. unfold is_hex_digit.
  destruct ((48 <=? N_of_ascii c)%N && (N_of_ascii c <=? 57)%N); [done|].
  cbn in Hc. rewrite Hc. by rewrite orb_true_r.
Qed.

Lemma ObjectID_isValid_accepts : accepts_object_ids ObjectID_isValid.
Proof.
  intros bytes Hlen. split; [done|].
  cbn [ObjectID_isValid]. rewrite toHexString_length, Hlen.
  cbn. apply is_lower_hex_is_hex, toHexString_lower_hex.
Qed.

(** *** The library instance meets the contract *)

Lemma is_lower_hex_chars s :
  is_lower_hex s = true →
  Forall (λ c, is_lower_hex_digit c = true) (Hashids.chars s).
Proof.
  induction s as [|c s IH]; cbn [is_lower_hex Hashids.chars list_ascii_of_string].
  - constructor.
  - intros [Hc Hs]%andb_prop. constructor; [done|]. by apply IH.
Qed.

Lemma library_hex_reversible : hex_reversible library.
Proof.
  intros salt s Hne Hhex. eexists. split; [reflexivity|].
  cbn [library decodeHex].
  rewrite HashidsFacts.decodeHex_encodeHex;
    [done|apply HashidsFacts.HashIds_wf|done|by apply is_lower_hex_chars].
Qed.



(** The values the documentation of the library gives are the values
    computed here. *)
Example hashids_documented_values :
  Hashids.encode (Hashids.HashIds "this is my salt") [12345%N] = "NkK9"
  ∧ Hashids.encode (Hashids.HashIds "this is my salt") [1; 2; 3]%N = "laHquq"
  ∧ Hashids.encode (Hashids.HashIds "this is my salt") [683; 94108; 123; 5]%N
    = "aBMswoO2UB3Sj"
  ∧ Hashids.encode (Hashids.HashIds "") [1; 2; 3]%N = "o2fXhV"
  ∧ Hashids.encodeHex (Hashids.HashIds "") "507f1f77bcf86cd799439011"
    = "y42LW46J9luq3Xq9XMly"
  ∧ Hashids.encodeHex (Hashids.HashIds "this is my salt") "1d7f21dd38" = "4o6Z7KqxE"
  ∧ Hashids.alphabet (Hashids.HashIds "this is my salt")
    = Hashids.chars "5N6y2rljDQak4xgzn8ZR1oKYLmJpEbVq3OBv9WwXPMe7".
Proof. repeat split; by vm_compute. Qed.

Example encodeID_sample :
  encodeID ObjectID_isValid (library None) (Oid sample_id)
  = Return "y42LW46J9luq3Xq9XMly".
Proof. by vm_compute. Qed.

(** Outside the ids of the driver the round trip is lost. An id of the
    embedded store, sixteen letters and digits, is not hexadecimal: it
    encodes to the empty string. A string of 24 upper-case digits comes
    back in lower case. *)
Example encodeID_embedded_store_id :
  ObjectID_isValid (IdStr "Zk3WqT8uYp0LmNb2") = false
  ∧ encodeID ObjectID_isValid (library None) (IdStr "Zk3WqT8uYp0LmNb2") = Return ""
  ∧ decode_encoded ObjectID_isValid (library None) (IdStr "Zk3WqT8uYp0LmNb2")
    = Return "".
Proof. repeat split; by vm_compute. Qed.

Example decode_encoded_upper_case :
  ObjectID_isValid (IdStr "507F1F77BCF86CD799439011") = true
  ∧ decode_encoded ObjectID_isValid (library None) (IdStr "507F1F77BCF86CD799439011")
    = Return "507f1f77bcf86cd799439011".
Proof. repeat split; by vm_compute. Qed.

(** What the modelled release of the library does with a malformed id:
    the empty string when the id is made of its characters but is not
    an encoding, an exception when it has a foreign character. *)
Example decodeID_malformed :
  decodeID (library None) "y42LW46J9luq3Xq9XMlz" = Return ""
  ∧ decodeID (library None) "" = Return ""
  ∧ ∃ e, decodeID (library None) "y42LW46J9luq3-Xq9XMly" = Throw e.
Proof. repeat split; [by vm_compute..|]. eexists. by vm_compute. Qed.

(** *** Distinct ids, instances and numbers *)

Lemma hex_digit_inj a b :
  (a < 16)%N → (b < 16)%N → hex_digit a = hex_digit b → a = b.
Proof.
  intros Ha Hb.
  assert (∀ d, (d < 16)%N → Hashids.hexValue (hex_digit d) = Some d) as Hvalue.
  { intros d Hd. destruct d as [|p]; [done|].
    do 4 (destruct p as [p|p|]; try done); lia. }
  intros Heq. apply (f_equal Hashids.hexValue) in Heq.
  rewrite !Hvalue in Heq by done. congruence.
Qed.

Lemma toHexString_inj b1 b2 : toHexString b1 = toHexString b2 → b1 = b2.
Proof.
  revert b2. induction b1 as [|x b1 IH]; intros [|y b2]; try done.
  cbn [toHexString]. intros [= Hhigh Hlow Hrest].
  pose proof (Byte.to_N_bounded x). pose proof (Byte.to_N_bounded y).
  apply hex_digit_inj in Hhigh; [|apply N.Div0.div_lt_upper_bound; lia..].
  apply hex_digit_inj in Hlow; [|apply N.mod_lt; lia..].
  assert (Byte.to_N x = Byte.to_N y) as Hxy.
  { rewrite (N.div_mod (Byte.to_N x) 16), (N.div_mod (Byte.to_N y) 16) by lia.
    congruence. }
  f_equal; [|by apply IH].
  pose proof (Byte.of_to_N x) as Hx. rewrite Hxy, Byte.of_to_N in Hx. congruence.
Qed.

Lemma pretty_N_char_lower_hex d : is_lower_hex_digit (pretty_N_char d) = true.
Proof.
  destruct d as [|p]; [done|].
  do 4 (destruct p as [p|p|]; try done).
Qed.

Lemma pretty_N_go_lower_hex x s :
  is_lower_hex s = true → is_lower_hex (pretty_N_go x s) = true.
Proof.
  revert s. induction (N.lt_wf_0 x) as [x _ IH]; intros s Hs.
  assert (x = 0 ∨ 0 < x)%N as [->|?] by lia; [by rewrite pretty_N_go_0|].
  rewrite pretty_N_go_step by done. apply IH; [by apply N.div_lt|].
  cbn [is_lower_hex]. by rewrite pretty_N_char_lower_hex, Hs.
Qed.

Lemma pretty_N_go_nonempty x s : s ≠ "" → pretty_N_go x s ≠ "".
Proof.
  revert s. induction (N.lt_wf_0 x) as [x _ IH]; intros s Hs.
  assert (x = 0 ∨ 0 < x)%N as [->|?] by lia; [by rewrite pretty_N_go_0|].
  rewrite pretty_N_go_step by done. apply IH; [by apply N.div_lt|done].
Qed.

(** The decimal digits of a number that is not negative are hexadecimal
    digits too. *)
Lemma pretty_Z_lower_hex n :
  (0 ≤ n)%Z → pretty n ≠ "" ∧ is_lower_hex (pretty n) = true.
Proof.
  intros Hn. destruct n as [|p|p]; [done| |lia].
  unfold pretty, pretty_Z, pretty, pretty_positive, pretty, pretty_N.
  destruct (decide (N.pos p = 0%N)) as [|_]; [done|].
  rewrite pretty_N_go_step by lia. split.
  - by apply pretty_N_go_nonempty.
  - apply pretty_N_go_lower_hex. cbn [is_lower_hex].
    by rewrite pretty_N_char_lower_hex.
Qed.

Section More.

Variable isValid : id_value → bool.
Variable HashIds : option string → hashids.

(** An [ObjectID] instance the driver accepts is encoded as its
    hexadecimal string is: the two have the same external id, whatever
    the library does with the string. *)
Lemma encodeID_instance_as_string h bytes :
  isValid (Oid bytes) = true →
  encodeID isValid h (Oid bytes) = encodeID isValid h (IdStr (toHexString bytes)).
Proof. unfold encodeID. intros ->. by destruct (isValid (IdStr _)). Qed.

(** When the library decodes what it encoded and the driver accepts
    its own ids, two different 12-byte ids never get the same external
    id. *)
Lemma encodeID_distinct salt b1 b2 :
  hex_reversible HashIds →
  accepts_object_ids isValid →
  length b1 = 12%nat →
  length b2 = 12%nat →
  b1 ≠ b2 →
  encodeID isValid (HashIds salt) (Oid b1) ≠ encodeID isValid (HashIds salt) (Oid b2).
Proof.
  intros Hrev Hvalid Hlen1 Hlen2 Hne Heq. apply Hne, toHexString_inj.
  destruct (Hvalid b1 Hlen1) as [Hoid1 _], (Hvalid b2 Hlen2) as [Hoid2 _].
  destruct (Hrev salt (toHexString b1)) as (e1 & Henc1 & Hdec1);
    [apply toHexString_nonempty; by destruct b1|apply toHexString_lower_hex|].
  destruct (Hrev salt (toHexString b2)) as (e2 & Henc2 & Hdec2);
    [apply toHexString_nonempty; by destruct b2|apply toHexString_lower_hex|].
  unfold encodeID in Heq. rewrite Hoid1, Hoid2 in Heq. cbn [toString] in Heq.
  rewrite Henc1, Henc2 in Heq. injection Heq as ->. congruence.
Qed.

(** A number the driver accepts is turned into its decimal text before
    it is encoded, and the digits are then read as hexadecimal: for a
    safe integer that is not negative, [decodeID (encodeID n)] is the
    decimal text of [n]. *)
Lemma decodeID_encodeID_number salt n :
  hex_reversible HashIds →
  isValid (IdNum n) = true →
  (0 ≤ n < 2 ^ 53)%Z →
  decode_encoded isValid (HashIds salt) (IdNum n) = Return (pretty n).
Proof.
  intros Hrev Hvalid [Hn _].
  destruct (pretty_Z_lower_hex n Hn) as [Hne Hhex].
  destruct (Hrev salt (pretty n) Hne Hhex) as (external & Henc & Hdec).
  unfold decode_encoded, encodeID, decodeID. rewrite Hvalid. cbn [toString].
  by rewrite Henc.
Qed.

End More.

(** The id of the driver's documentation, as an instance. *)
Lemma encodeID_instance_as_string_witness :
  encodeID ObjectID_isValid (library None) (Oid sample_id)
  = encodeID ObjectID_isValid (library None) (IdStr "507f1f77bcf86cd799439011").
Proof.
  exact (encodeID_instance_as_string ObjectID_isValid (library None) sample_id eq_refl).
Defined.

(** The id of the driver's documentation and the id one above it. *)
Lemma encodeID_distinct_witness :
  sample_id ≠ next_id
  ∧ encodeID ObjectID_isValid (library None) (Oid sample_id)
    ≠ encodeID ObjectID_isValid (library None) (Oid next_id).
Proof.
  split; [done|].
  apply (encodeID_distinct ObjectID_isValid library None sample_id next_id
           library_hex_reversible ObjectID_isValid_accepts eq_refl eq_refl).
  done.
Defined.

(** The numeric id 255 comes back as the text ["255"]. *)
Lemma decodeID_encodeID_number_witness :
  decode_encoded ObjectID_isValid (library None) (IdNum 255) = Return "255".
Proof.
  apply (decodeID_encodeID_number ObjectID_isValid library None 255
           library_hex_reversible eq_refl).
  lia.
Defined.

End CodecFacts.

(** ** The factories: adapter selection and the action table *)
Module FactoryFacts.

Import Config Samples Notions.

Lemma truthy_env_value env x :
  truthy (env_value (env !! x)) = Methods.env_truthy env x.
Proof. unfold Methods.env_truthy. by destruct (env !! x). Qed.

Lemma lookup_field_assign k v fields :
  lookup_field k (assign k v fields) = Some v.
Proof.
  induction fields as [|[k' v'] fields IH]; cbn [assign lookup_field].
  - by rewrite String.eqb_refl.
  - destruct (String.eqb k k') eqn:E; cbn [lookup_field]; by rewrite ?String.eqb_refl, ?E.
Qed.

Lemma lookup_field_assign_ne k k' v fields :
  k ≠ k' → lookup_field k' (assign k v fields) = lookup_field k' fields.
Proof.
  intros Hne.
  induction fields as [|[k0 v0] fields IH]; cbn [assign lookup_field].
  - destruct (String.eqb_spec k' k); congruence.
  - destruct (String.eqb_spec k k0) as [->|]; cbn [lookup_field].
    + destruct (String.eqb_spec k' k0); congruence.
    + by rewrite IH.
Qed.

Lemma prop_assign k v fields : prop k (assign k v fields) = v.
Proof. unfold prop. by rewrite lookup_field_assign. Qed.

Lemma prop_assign_ne k k' v fields :
  k ≠ k' → prop k' (assign k v fields) = prop k' fields.
Proof. intros. unfold prop. by rewrite lookup_field_assign_ne. Qed.

(** Defaults for a single key. *)
Lemma with_defaults_single opts k d :
  with_defaults opts (JObj [(k, d)]) =
    match lookup_field k opts with
    | None | Some JUndefined => assign k d opts
    | Some (JObj held) =>
        match d with
        | JObj _ => assign k (defaultsDeep (JObj held) d) opts
        | _ => opts
        end
    | Some _ => opts
    end.
Proof. reflexivity. Qed.

Lemma with_defaults_absent opts k d :
  prop k opts = JUndefined → with_defaults opts (JObj [(k, d)]) = assign k d opts.
Proof.
  unfold prop. rewrite with_defaults_single.
  destruct (lookup_field k opts) as [[]|]; by try discriminate.
Qed.

(** Filling in defaults for one key leaves every other key alone. *)
Lemma with_defaults_other opts k d k' :
  k ≠ k' → prop k' (with_defaults opts (JObj [(k, d)])) = prop k' opts.
Proof.
  intros Hne. rewrite with_defaults_single.
  destruct (lookup_field k opts) as [[| | | | |held]|]; try done;
    try by apply prop_assign_ne.
  destruct d; try done; by apply prop_assign_ne.
Qed.

Lemma or_else_nedb_folder env opts :
  or_else (env_value (env !! "NEDB_FOLDER")) (prop "nedb" opts) = nedb_folder env opts.
Proof.
  unfold or_else, nedb_folder.
  destruct (env !! "NEDB_FOLDER") as [d|]; [|done].
  cbn [env_value truthy]. by destruct (String.eqb d "").
Qed.

Lemma or_else_mongo_uri env :
  or_else (env_value (env !! "MONGO_URI")) (JStr "mongodb://localhost/data")
  = JStr (mongo_uri env).
Proof.
  unfold or_else, mongo_uri.
  destruct (env !! "MONGO_URI") as [u|]; [|done].
  cbn [env_value truthy]. by destruct (String.eqb u "").
Qed.

Lemma truthy_nonempty d : d ≠ "" → truthy (JStr d) = true.
Proof. intros Hd. cbn. by destruct (String.eqb_spec d ""). Qed.

Section Selection.

Variable path_resolve : string → string.
Variable path_join : string → string → string.

Lemma Part000_selects_file_store opts p d :
  prop "adapter" opts = JUndefined →
  prop "nedb" opts = JStr d →
  d ≠ "" →
  Part000.select_adapter path_resolve path_join opts p
  = (Return (file_store path_resolve path_join d opts), Process (env p) ({[path_resolve d]} ∪ dirs p)).
Proof.
  intros Hfree Hnedb Hd. unfold Part000.select_adapter.
  rewrite Hnedb, (truthy_nonempty d Hd).
  unfold mbind, ST_bind; cbn -[with_defaults].
  unfold NeDB_defaults. by rewrite with_defaults_absent.
Qed.

Lemma Part000_selects_network_store opts p :
  prop "adapter" opts = JUndefined →
  truthy (prop "nedb" opts) = false →
  Part000.select_adapter path_resolve path_join opts p
  = (Return (network_store (env p) opts), p).
Proof.
  intros Hfree Hnedb. unfold Part000.select_adapter.
  rewrite Hnedb. unfold mbind, ST_bind; cbn -[with_defaults or_else].
  unfold MongoDB_defaults. rewrite or_else_mongo_uri.
  by rewrite with_defaults_absent.
Qed.

Lemma DbMixin_mode testing opts p :
  DbMixin.select_adapter path_resolve path_join testing opts p
  = if generate_mode testing (env p)
    then (Return (with_defaults opts (JObj [("adapter", JStr "NeDB")])), p)
    else if truthy (nedb_folder (env p) opts)
    then (dir ← resolve_dir path_resolve (nedb_folder (env p) opts);
          _ ← mkdir dir;
          mret (with_defaults opts (NeDB_defaults path_join dir opts))) p
    else (Return (with_defaults opts
                    (MongoDB_defaults (env_value (env p !! "MONGO_URI")) opts)), p).
Proof.
  unfold DbMixin.select_adapter, generate_mode, mbind, ST_bind, getenv;
    cbn -[with_defaults or_else].
  rewrite !truthy_env_value.
  destruct (testing && negb (Methods.env_truthy (env p) "TEST_INT")
            || Methods.env_truthy (env p) "ONLY_GENERATE"); [done|].
  cbn beta. rewrite or_else_nedb_folder.
  destruct (truthy (nedb_folder (env p) opts)); [|done].
  cbn beta. by rewrite or_else_nedb_folder.
Qed.

(** C5, amended. For options that carry no adapter setting of their
    own. In [part_000], a non-empty string [nedb] selects the NeDB file
    store in the resolved directory, with the data file named after the
    collection and threshold 0.5, and the directory is created; a falsy
    [nedb] selects MongoDB with [MONGO_URI] or else
    [mongodb://localhost/data] and the collection name. In
    [db.mixin.js] the directory is [NEDB_FOLDER] or else [nedb], and
    the same two cases hold outside the test or generate mode; in that
    mode the adapter defaults to the bare name [NeDB] and nothing is
    created on disk. *)
Theorem adapter_selection testing opts p :
  prop "adapter" opts = JUndefined →
  (∀ d, prop "nedb" opts = JStr d → d ≠ "" →
     Part000.select_adapter path_resolve path_join opts p
     = (Return (file_store path_resolve path_join d opts), Process (env p) ({[path_resolve d]} ∪ dirs p)))
  ∧ (truthy (prop "nedb" opts) = false →
     Part000.select_adapter path_resolve path_join opts p
     = (Return (network_store (env p) opts), p))
  ∧ (generate_mode testing (env p) = true →
     DbMixin.select_adapter path_resolve path_join testing opts p
     = (Return (assign "adapter" (JStr "NeDB") opts), p))
  ∧ (generate_mode testing (env p) = false →
     ∀ d, nedb_folder (env p) opts = JStr d → d ≠ "" →
     DbMixin.select_adapter path_resolve path_join testing opts p
     = (Return (file_store path_resolve path_join d opts), Process (env p) ({[path_resolve d]} ∪ dirs p)))
  ∧ (generate_mode testing (env p) = false →
     truthy (nedb_folder (env p) opts) = false →
     DbMixin.select_adapter path_resolve path_join testing opts p
     = (Return (network_store (env p) opts), p)).
Proof.
  intros Hfree. repeat split.
  - intros d Hnedb Hd. by apply Part000_selects_file_store.
  - intros Hnedb. by apply Part000_selects_network_store.
  - intros Hmode. rewrite DbMixin_mode, Hmode.
    by rewrite with_defaults_absent.
  - intros Hmode d Hfolder Hd. rewrite DbMixin_mode, Hmode, Hfolder.
    rewrite (truthy_nonempty d Hd).
    unfold mbind, ST_bind; cbn -[with_defaults].
    unfold NeDB_defaults. by rewrite with_defaults_absent.
  - intros Hmode Hfolder. rewrite DbMixin_mode, Hmode, Hfolder.
    unfold MongoDB_defaults. rewrite or_else_mongo_uri.
    by rewrite with_defaults_absent.
Qed.

(** A directory that is truthy but not a string is rejected by
    [path.resolve], and nothing is created. *)
Lemma Part000_rejects_non_string_directory opts p :
  truthy (prop "nedb" opts) = true →
  (∀ d, prop "nedb" opts ≠ JStr d) →
  ∃ e, Part000.select_adapter path_resolve path_join opts p = (Throw e, p).
Proof.
  intros Htruthy Hnot. unfold Part000.select_adapter. rewrite Htruthy.
  unfold mbind, ST_bind, resolve_dir.
  destruct (prop "nedb" opts) as [| | | |d|]; try by eexists.
  by destruct (Hnot d).
Qed.

(** What either factory hands on leaves every key but [adapter] as the
    caller gave it. *)
Lemma Part000_select_adapter_other opts p opts' p' k :
  Part000.select_adapter path_resolve path_join opts p = (Return opts', p') →
  k ≠ "adapter" → prop k opts' = prop k opts.
Proof.
  unfold Part000.select_adapter, mbind, ST_bind, resolve_dir, NeDB_defaults,
    MongoDB_defaults, getenv.
  intros Hsel Hk.
  destruct (truthy (prop "nedb" opts)).
  - destruct (prop "nedb" opts); try discriminate.
    cbn -[with_defaults] in Hsel. injection Hsel as <- _.
    by apply with_defaults_other.
  - cbn -[with_defaults or_else] in Hsel. injection Hsel as <- _.
    by apply with_defaults_other.
Qed.

(** Selecting the adapter never touches the environment. *)
Lemma DbMixin_select_adapter_env testing opts p r p' :
  DbMixin.select_adapter path_resolve path_join testing opts p = (r, p') →
  env p' = env p.
Proof.
  rewrite DbMixin_mode.
  destruct (generate_mode testing (env p)); [by intros [= _ <-]|].
  destruct (truthy (nedb_folder (env p) opts)); [|by intros [= _ <-]].
  unfold mbind, ST_bind, resolve_dir.
  destruct (nedb_folder (env p) opts); by intros [= _ <-].
Qed.

(** C7, amended. Whatever the [part_000] factory returns declares,
    apart from the switched-off [replace], exactly the seven actions
    create, list, find, count, get, update and remove, each with the
    one permission tag made of [opts.permissions], a dot and the action
    name. What the [db.mixin.js] factory returns declares no action at
    all. *)
Theorem action_tables randomHex testing opts p :
  (∀ sch p', Part000.exports path_resolve path_join opts p = (Return sch, p') →
     exposed (actions sch)
     = map (λ name, (name, [to_string (prop "permissions" opts) +:+ "." +:+ name]))
         ["create"; "list"; "find"; "count"; "get"; "update"; "remove"]
     ∧ lookup_action "replace" (actions sch) = Some Off)
  ∧ (∀ sch p',
       DbMixin.exports path_resolve path_join randomHex testing opts p
       = (Return sch, p') →
       actions sch = []).
Proof.
  split.
  - intros sch p'. unfold Part000.exports, mbind at 1, ST_bind at 1, getenv.
    unfold mbind, ST_bind.
    destruct (Part000.select_adapter path_resolve path_join opts p)
      as [[opts'|e] p1] eqn:Hsel; [|done].
    intros [= <- <-]. cbn [actions].
    unfold Part000.schema_actions, Part000.permission.
    rewrite (Part000_select_adapter_other _ _ _ _ "permissions" Hsel) by done.
    done.
  - intros sch p'. unfold DbMixin.exports, mbind, ST_bind, getenv.
    destruct (if negb _ && _ then _ else _) as [[[]|e] p1]; [|done].
    destruct (DbMixin.select_adapter _ _ _ _ _) as [[opts'|e] p2]; [|done].
    by intros [= <- <-].
Qed.

End Selection.

(** The accounts service on disk, in a runtime outside every test
    mode. *)
Lemma adapter_selection_witness :
  prop "adapter" accounts_on_disk = JUndefined
  ∧ Part000.select_adapter sample_resolve sample_join accounts_on_disk sample_process
    = (Return (file_store sample_resolve sample_join "data" accounts_on_disk),
       Process ∅ ({["/srv/app/data"]} ∪ ∅))
  ∧ DbMixin.select_adapter sample_resolve sample_join false accounts_on_disk
      sample_process
    = (Return (file_store sample_resolve sample_join "data" accounts_on_disk),
       Process ∅ ({["/srv/app/data"]} ∪ ∅)).
Proof.
  pose proof (adapter_selection sample_resolve sample_join false accounts_on_disk
                sample_process eq_refl) as (Hfile & _ & _ & Hmixin & _).
  split; [reflexivity|]. split.
  - exact (Hfile "data" eq_refl ltac:(done)).
  - exact (Hmixin eq_refl "data" eq_refl ltac:(done)).
Defined.

(** The configuration written for the accounts service on disk. *)
Example accounts_file_store :
  prop "adapter" (file_store sample_resolve sample_join "data" accounts_on_disk)
  = NeDB_adapter "/srv/app/data/accounts.db".
Proof. reflexivity. Qed.

(** C5 as stated fails on options that bring their own adapter: with a
    directory configured, the adapter type stays [MongoDB]. *)
Lemma preset_adapter_is_kept :
  ∃ opts' p',
    Part000.select_adapter sample_resolve sample_join accounts_preset sample_process
    = (Return opts', p')
    ∧ truthy (prop "nedb" accounts_preset) = true
    ∧ prop "type" (fields_of (prop "adapter" opts')) = JStr "MongoDB".
Proof. by eexists _, _. Qed.

(** C5 as stated also fails in the test mode of [db.mixin.js]: with no
    directory configured the adapter is not MongoDB. *)
Example test_mode_ignores_mongo :
  ∃ opts',
    DbMixin.select_adapter sample_resolve sample_join true accounts_on_mongo
      sample_process
    = (Return opts', sample_process)
    ∧ prop "adapter" opts' = JStr "NeDB".
Proof. by eexists. Qed.

(** [part_000] does not read [NEDB_FOLDER]. *)
Example Part000_ignores_NEDB_FOLDER :
  ∃ opts',
    Part000.select_adapter sample_resolve sample_join accounts_on_mongo
      (Process {[ "NEDB_FOLDER" := "/var/db" ]} ∅)
    = (Return opts', Process {[ "NEDB_FOLDER" := "/var/db" ]} ∅)
    ∧ prop "type" (fields_of (prop "adapter" opts')) = JStr "MongoDB".
Proof. by eexists. Qed.

(** The accounts service built by both factories. *)
Lemma action_tables_witness :
  ∃ sch p',
    Part000.exports sample_resolve sample_join accounts_on_mongo sample_process
    = (Return sch, p')
    ∧ exposed (actions sch)
      = [("create", ["accounts.create"]); ("list", ["accounts.list"]);
         ("find", ["accounts.find"]); ("count", ["accounts.count"]);
         ("get", ["accounts.get"]); ("update", ["accounts.update"]);
         ("remove", ["accounts.remove"])]
    ∧ lookup_action "replace" (actions sch) = Some Off.
Proof.
  eexists _, _. split; [reflexivity|].
  exact (proj1 (action_tables sample_resolve sample_join "" false
                  accounts_on_mongo sample_process) _ _ eq_refl).
Defined.

(** C7 as stated fails for [db.mixin.js]: the schema it returns has an
    empty action table, so it neither gates an action nor switches
    [replace] off. *)
Lemma db_mixin_declares_no_actions :
  ∃ sch p',
    DbMixin.exports sample_resolve sample_join "5f1c" false accounts_on_mongo
      sample_process
    = (Return sch, p')
    ∧ exposed (actions sch) = []
    ∧ lookup_action "replace" (actions sch) = None.
Proof. by eexists _, _. Qed.

(** *** [_.defaultsDeep] applied twice *)

(** Induction on option trees, with the hypothesis for every field of
    an object. *)
Lemma json_nested_ind (P : json → Prop) :
  P JUndefined → P JNull → (∀ b, P (JBool b)) → (∀ r, P (JNum r)) → (∀ s, P (JStr s)) →
  (∀ fields, Forall (λ kv, P kv.2) fields → P (JObj fields)) →
  ∀ v, P v.
Proof.
  intros Hu Hn Hb Hr Hs Hobj.
  refine (fix IH v :=
            match v with
            | JUndefined => Hu | JNull => Hn | JBool b => Hb b | JNum r => Hr r
            | JStr s => Hs s
            | JObj fields =>
                Hobj fields
                  ((fix go (l : list (string * json)) : Forall (λ kv, P kv.2) l :=
                      match l with
                      | [] => @List.Forall_nil _ (λ kv : string * json, P kv.2)
                      | (k, d) :: l' =>
                          @List.Forall_cons _ (λ kv : string * json, P kv.2) (k, d) l'
                            (IH d) (go l')
                      end) fields)
            end).
Qed.

(** Between two objects [_.defaultsDeep] handles the keys of the
    defaults one after the other. *)
Lemma defaultsDeep_fold fields defaults :
  defaultsDeep (JObj fields) (JObj defaults) = JObj (foldl fill_step fields defaults).
Proof.
  revert fields. induction defaults as [|[k d] defaults IH]; intros fields; [done|].
  cbn [foldl]. rewrite <-IH. unfold fill_step, filled. cbn [fst snd defaultsDeep].
  destruct (lookup_field k fields) as [[| | | | |held]|]; try done.
  by destruct d.
Qed.

Lemma assign_same k v acc : lookup_field k acc = Some v → assign k v acc = acc.
Proof.
  induction acc as [|[k' v'] acc IH]; [done|]. cbn [lookup_field assign].
  destruct (String.eqb_spec k k') as [->|Hne].
  - by intros [= ->].
  - intros Hacc. by rewrite IH.
Qed.

Lemma assign_absent k v acc : lookup_field k acc = None → assign k v acc = acc ++ [(k, v)].
Proof.
  induction acc as [|[k' v'] acc IH]; [done|]. cbn [lookup_field assign].
  destruct (String.eqb k k'); [done|]. intros Hacc. by rewrite IH.
Qed.

Lemma lookup_field_app_absent k acc more :
  lookup_field k acc = None → lookup_field k (acc ++ more) = lookup_field k more.
Proof.
  induction acc as [|[k' v'] acc IH]; [done|]. cbn [lookup_field app].
  by destruct (String.eqb k k').
Qed.

Lemma lookup_fill_step_ne acc kd k :
  kd.1 ≠ k → lookup_field k (fill_step acc kd) = lookup_field k acc.
Proof.
  intros Hne. unfold fill_step. destruct (filled _ _); [|done].
  by apply lookup_field_assign_ne.
Qed.

Lemma lookup_fill_step acc kd :
  lookup_field kd.1 (fill_step acc kd)
  = match filled (lookup_field kd.1 acc) kd.2 with
    | Some v => Some v
    | None => lookup_field kd.1 acc
    end.
Proof.
  unfold fill_step. destruct (filled _ _); [|done]. apply lookup_field_assign.
Qed.

Lemma lookup_foldl_fill_step acc defaults k :
  k ∉ defaults.*1 →
  lookup_field k (foldl fill_step acc defaults) = lookup_field k acc.
Proof.
  revert acc. induction defaults as [|kd defaults IH]; intros acc Hk; [done|].
  cbn [foldl]. rewrite fmap_cons, not_elem_of_cons in Hk. destruct Hk as [Hne Hk].
  rewrite IH by done. by apply lookup_fill_step_ne.
Qed.

(** Defaults poured into an object that has none of their keys are
    appended as they are. *)
Lemma foldl_fill_step_fresh acc defaults :
  NoDup defaults.*1 →
  (∀ k, k ∈ defaults.*1 → lookup_field k acc = None) →
  foldl fill_step acc defaults = acc ++ defaults.
Proof.
  revert acc. induction defaults as [|[k d] defaults IH]; intros acc Hnodup Hfresh.
  - by rewrite app_nil_r.
  - cbn [foldl]. rewrite fmap_cons in Hnodup. apply NoDup_cons in Hnodup as [Hk Hnodup].
    unfold fill_step at 2. cbn [fst snd].
    rewrite (Hfresh k) by (rewrite fmap_cons; apply list_elem_of_here).
    cbn [filled]. rewrite assign_absent
      by (apply Hfresh; rewrite fmap_cons; apply list_elem_of_here).
    rewrite IH; [by rewrite <-app_assoc|done|].
    intros k' Hk'. rewrite lookup_field_app_absent.
    + cbn [lookup_field]. destruct (String.eqb_spec k' k) as [->|]; [by destruct Hk|done].
    + apply Hfresh. rewrite fmap_cons. by apply list_elem_of_further.
Qed.

Lemma distinct_keys_obj fields :
  distinct_keys (JObj fields) = true →
  NoDup fields.*1 ∧ Forall (λ kv, distinct_keys kv.2 = true) fields.
Proof.
  cbn [distinct_keys]. intros [Hnodup Hall]%andb_prop. split.
  - by apply bool_decide_eq_true in Hnodup.
  - apply Forall_forall. intros [k d] Hin.
    rewrite forallb_forall in Hall. apply (Hall (k, d)). by apply list_elem_of_In.
Qed.

(** Filling in the same defaults a second time changes nothing. *)
Lemma defaultsDeep_idem s :
  distinct_keys s = true →
  ∀ o, defaultsDeep (defaultsDeep o s) s = defaultsDeep o s.
Proof.
  induction s as [| | | | |defaults IHs] using json_nested_ind;
    try (intros _ o; by destruct o).
  intros [Hnodup Hdistinct]%distinct_keys_obj [| | | | |fields]; try done.
  rewrite !defaultsDeep_fold. f_equal.
  revert fields. induction defaults as [|[k d] defaults IH]; intros fields; [done|].
  apply Forall_cons in IHs as [IHd IHs].
  apply Forall_cons in Hdistinct as [Hd Hdistinct].
  rewrite fmap_cons in Hnodup. apply NoDup_cons in Hnodup as [Hk Hnodup].
  cbn [fst snd] in *. specialize (IHd Hd).
  cbn [foldl].
  set (R := foldl fill_step (fill_step fields (k, d)) defaults).
  assert (fill_step R (k, d) = R) as ->; [|by apply IH].
  assert (lookup_field k R
          = match filled (lookup_field k fields) d with
            | Some v => Some v
            | None => lookup_field k fields
            end) as HR.
  { unfold R. rewrite lookup_foldl_fill_step by done.
    apply (lookup_fill_step fields (k, d)). }
  unfold fill_step. cbn [fst snd]. rewrite HR.
  assert (defaultsDeep d d = d) as Hself.
  { destruct d as [| | | | |df]; try done.
    apply distinct_keys_obj in Hd as [Hdf _].
    pose proof (IHd (JObj [])) as Hempty.
    rewrite (defaultsDeep_fold [] df), foldl_fill_step_fresh in Hempty; done. }
  destruct (lookup_field k fields) as [[| | | | |held]|] eqn:Hheld; cbn [filled];
    try done.
  1, 3: destruct d; rewrite ?Hself; try done; by apply assign_same.
  destruct d as [| | | | |df]; cbn [filled]; rewrite ?Hheld; try done.
  rewrite defaultsDeep_fold. cbn [filled]. rewrite <-defaultsDeep_fold, IHd.
  by apply assign_same.
Qed.

Lemma with_defaults_idem opts defaults :
  distinct_keys (JObj defaults) = true →
  with_defaults (with_defaults opts (JObj defaults)) (JObj defaults)
  = with_defaults opts (JObj defaults).
Proof.
  intros Hdistinct. unfold with_defaults.
  rewrite (defaultsDeep_fold opts). cbn [fields_of].
  rewrite <-(defaultsDeep_fold opts), defaultsDeep_idem by done.
  by rewrite defaultsDeep_fold.
Qed.

Lemma distinct_keys_prop k opts :
  distinct_keys (JObj opts) = true → distinct_keys (prop k opts) = true.
Proof.
  intros [_ Hall]%distinct_keys_obj. unfold prop.
  induction opts as [|[k' v] opts IH]; [done|]. cbn [lookup_field].
  apply Forall_cons in Hall as [Hv Hall].
  destruct (String.eqb k k'); [done|by apply IH].
Qed.

(** *** What the factories keep, and what they touch *)
Section Keeping.

Variable path_resolve : string → string.
Variable path_join : string → string → string.

Lemma DbMixin_select_adapter_other testing opts p opts' p' k :
  DbMixin.select_adapter path_resolve path_join testing opts p = (Return opts', p') →
  k ≠ "adapter" → prop k opts' = prop k opts.
Proof.
  rewrite DbMixin_mode. intros Hsel Hk.
  destruct (generate_mode testing (env p)).
  - injection Hsel as <- _. by apply with_defaults_other.
  - destruct (truthy (nedb_folder (env p) opts)).
    + unfold mbind, ST_bind, resolve_dir, NeDB_defaults in Hsel.
      destruct (nedb_folder (env p) opts); try discriminate.
      cbn -[with_defaults] in Hsel. injection Hsel as <- _.
      by apply with_defaults_other.
    + unfold MongoDB_defaults in Hsel. injection Hsel as <- _.
      by apply with_defaults_other.
Qed.

(** Both factories hand every option but [adapter] on to the database
    service as the caller set it. *)
Lemma options_are_kept testing opts p opts' p' k :
  k ≠ "adapter" →
  (Part000.select_adapter path_resolve path_join opts p = (Return opts', p') →
   prop k opts' = prop k opts)
  ∧ (DbMixin.select_adapter path_resolve path_join testing opts p = (Return opts', p') →
     prop k opts' = prop k opts).
Proof.
  intros Hk. split; intros Hsel.
  - by apply (Part000_select_adapter_other _ _ _ _ _ _ _ Hsel).
  - by apply (DbMixin_select_adapter_other _ _ _ _ _ _ Hsel).
Qed.

(** An adapter the caller set that is not an object, such as the bare
    name ["NeDB"], makes the defaults a no-op. *)
Lemma with_defaults_preset opts d v :
  lookup_field "adapter" opts = Some v →
  v ≠ JUndefined →
  (∀ held, v ≠ JObj held) →
  with_defaults opts (JObj [("adapter", d)]) = opts.
Proof.
  intros Hheld Hdef Hobj. rewrite with_defaults_single, Hheld.
  destruct v as [| | | | |held]; try done. by destruct (Hobj held).
Qed.

(** An adapter object that names its [type] keeps it under the defaults
    of either store. *)
Lemma with_defaults_type opts held t ty o :
  lookup_field "adapter" opts = Some (JObj held) →
  lookup_field "type" held = Some t →
  t ≠ JUndefined →
  prop "type" (fields_of (prop "adapter"
     (with_defaults opts (JObj [("adapter", JObj [("type", JStr ty); ("options", o)])]))))
  = t.
Proof.
  intros Hadapter Htype Hdef. rewrite with_defaults_single, Hadapter.
  rewrite prop_assign, defaultsDeep_fold. cbn [fields_of foldl].
  assert (fill_step held ("type", JStr ty) = held) as ->.
  { unfold fill_step. cbn [fst snd]. rewrite Htype. by destruct t. }
  unfold prop. rewrite lookup_fill_step_ne by done. by rewrite Htype.
Qed.

(** Neither factory overrides the caller's choice of adapter. An
    adapter option that is set and is not an object leaves the options
    exactly as they were; an adapter object with a [type] keeps that
    type, whatever directory or environment is configured. *)
Lemma preset_adapter_wins testing opts p opts' p' :
  (Part000.select_adapter path_resolve path_join opts p = (Return opts', p')
   ∨ DbMixin.select_adapter path_resolve path_join testing opts p = (Return opts', p')) →
  (∀ v, lookup_field "adapter" opts = Some v → v ≠ JUndefined →
        (∀ held, v ≠ JObj held) → opts' = opts)
  ∧ (∀ held t, lookup_field "adapter" opts = Some (JObj held) →
               lookup_field "type" held = Some t → t ≠ JUndefined →
               prop "type" (fields_of (prop "adapter" opts')) = t).
Proof.
  intros Hsel.
  assert (∃ d, opts' = with_defaults opts (JObj [("adapter", d)])
               ∧ ((∃ x, d = JStr x)
                  ∨ ∃ ty o, d = JObj [("type", JStr ty); ("options", o)]))
    as (d & -> & Hshape).
  { destruct Hsel as [Hsel|Hsel].
    - unfold Part000.select_adapter, mbind, ST_bind, resolve_dir, getenv in Hsel.
      destruct (truthy (prop "nedb" opts)).
      + destruct (prop "nedb" opts); try discriminate.
        cbn -[with_defaults] in Hsel. injection Hsel as <- _.
        eexists. split; [reflexivity|]. right. by eexists _, _.
      + cbn -[with_defaults or_else] in Hsel. injection Hsel as <- _.
        eexists. split; [reflexivity|]. right. by eexists _, _.
    - rewrite DbMixin_mode in Hsel.
      destruct (generate_mode testing (env p)).
      + injection Hsel as <- _. eexists. split; [reflexivity|]. left. by eexists.
      + destruct (truthy (nedb_folder (env p) opts)).
        * unfold mbind, ST_bind, resolve_dir in Hsel.
          destruct (nedb_folder (env p) opts); try discriminate.
          cbn -[with_defaults] in Hsel. injection Hsel as <- _.
          eexists. split; [reflexivity|]. right. by eexists _, _.
        * injection Hsel as <- _.
          eexists. split; [reflexivity|]. right. by eexists _, _. }
  split.
  - intros v Hheld Hdef Hobj. by apply (with_defaults_preset opts d v).
  - intros held t Hheld Htype Hdef.
    destruct Hshape as [[x ->]|(ty & o & ->)].
    + rewrite with_defaults_single, Hheld. unfold prop. rewrite Hheld.
      cbn [default from_option Datatypes.id fields_of]. by rewrite Htype.
    + by apply (with_defaults_type opts held t ty o).
Qed.

(** Applying a factory's adapter selection to the options it returned,
    in the process it left, returns the same options and leaves the
    same process: the defaults are filled in once. *)
Lemma select_adapter_idempotent testing opts p opts' p' :
  distinct_keys (JObj opts) = true →
  (Part000.select_adapter path_resolve path_join opts p = (Return opts', p') →
   Part000.select_adapter path_resolve path_join opts' p' = (Return opts', p'))
  ∧ (DbMixin.select_adapter path_resolve path_join testing opts p = (Return opts', p') →
     DbMixin.select_adapter path_resolve path_join testing opts' p' = (Return opts', p')).
Proof.
  intros Hdistinct.
  pose proof (distinct_keys_prop "collection" opts Hdistinct) as Hcollection.
  assert (∀ dir, {[dir]} ∪ ({[dir]} ∪ dirs p) = {[dir]} ∪ dirs p) as Hdirs
    by (intros dir; by rewrite (assoc_L (∪)), union_idemp_L).
  split; intros Hsel.
  - pose proof (λ k, Part000_select_adapter_other _ _ _ _ _ _ k Hsel) as Hkept.
    revert Hsel.
    unfold Part000.select_adapter, mbind, ST_bind, resolve_dir, getenv.
    rewrite !(Hkept "nedb") by done.
    destruct (truthy (prop "nedb" opts)).
    + destruct (prop "nedb" opts) as [| | | |d|]; try discriminate.
      cbn -[with_defaults]. intros [= <- <-]. cbn [env dirs].
      unfold NeDB_defaults. rewrite (with_defaults_other opts "adapter" _ "collection") by done.
      rewrite with_defaults_idem by done. by rewrite Hdirs.
    + cbn -[with_defaults or_else]. intros [= <- <-].
      unfold MongoDB_defaults. rewrite (with_defaults_other opts "adapter" _ "collection") by done.
      rewrite with_defaults_idem; [done|].
      cbn. by rewrite or_else_mongo_uri, Hcollection.
  - pose proof (λ k, DbMixin_select_adapter_other _ _ _ _ _ k Hsel) as Hkept.
    pose proof (DbMixin_select_adapter_env _ _ _ _ _ _ _ Hsel) as Henv.
    revert Hsel. rewrite !DbMixin_mode, Henv.
    destruct (generate_mode testing (env p)).
    + intros [= <- <-]. by rewrite with_defaults_idem.
    + assert (nedb_folder (env p) opts' = nedb_folder (env p) opts) as ->.
      { unfold nedb_folder. by rewrite (Hkept "nedb"). }
      destruct (truthy (nedb_folder (env p) opts)).
      * unfold mbind, ST_bind, resolve_dir.
        destruct (nedb_folder (env p) opts) as [| | | |d|]; try discriminate.
        cbn -[with_defaults]. intros [= <- <-]. cbn [env dirs].
        unfold NeDB_defaults. rewrite (with_defaults_other opts "adapter" _ "collection") by done.
        rewrite with_defaults_idem by done. by rewrite Hdirs.
      * intros [= <- <-].
        unfold MongoDB_defaults. rewrite (with_defaults_other opts "adapter" _ "collection") by done.
        rewrite with_defaults_idem; [done|].
        cbn. by rewrite or_else_mongo_uri, Hcollection.
Qed.

Lemma Part000_select_adapter_effects opts p r p' :
  Part000.select_adapter path_resolve path_join opts p = (r, p') →
  env p' = env p
  ∧ dirs p ⊆ dirs p'
  ∧ (truthy (prop "nedb" opts) = false → dirs p' = dirs p)
  ∧ (∀ opts', r = Return opts' → truthy (prop "nedb" opts) = true →
       ∃ d, prop "nedb" opts = JStr d ∧ path_resolve d ∈ dirs p').
Proof.
  unfold Part000.select_adapter, mbind, ST_bind, resolve_dir, getenv.
  destruct (truthy (prop "nedb" opts)).
  - destruct (prop "nedb" opts) as [| | | |d|]; cbn -[with_defaults];
      intros [= <- <-]; repeat split; try done.
    + set_solver.
    + intros opts' _ _. exists d. split; [done|set_solver].
  - cbn -[with_defaults or_else]. by intros [= _ <-].
Qed.

(** The [part_000] factory, whether it returns or throws, reads the
    environment and never writes it. It removes no directory and
    leaves the disk alone when [opts.nedb] is falsy; when it returns
    with [opts.nedb] truthy, the directory [path.resolve(opts.nedb)] is
    there. The salt it builds the codec from is [HASHID_SALT] as it is
    when the factory is called. *)
Lemma Part000_exports_effects opts p r p' :
  Part000.exports path_resolve path_join opts p = (r, p') →
  env p' = env p
  ∧ dirs p ⊆ dirs p'
  ∧ (truthy (prop "nedb" opts) = false → dirs p' = dirs p)
  ∧ (∀ sch, r = Return sch → truthy (prop "nedb" opts) = true →
       ∃ d, prop "nedb" opts = JStr d ∧ path_resolve d ∈ dirs p')
  ∧ (∀ sch, r = Return sch → salt sch = env p !! "HASHID_SALT").
Proof.
  unfold Part000.exports, mbind at 1, ST_bind at 1, getenv.
  unfold mbind at 1, ST_bind at 1.
  destruct (Part000.select_adapter path_resolve path_join opts p)
    as [[opts'|e] p1] eqn:Hsel;
    apply Part000_select_adapter_effects in Hsel
      as (Henv & Hgrow & Hfalsy & Hthere);
    intros [= <- <-]; repeat split; try done.
  - intros sch _ Hnedb. by apply (Hthere opts').
  - by intros sch [= <-].
Qed.

Lemma DbMixin_exports_env randomHex testing opts p r p' :
  DbMixin.exports path_resolve path_join randomHex testing opts p = (r, p') →
  env p'
  = if negb (Methods.env_truthy (env p) "TOKEN_SALT")
       && (testing || Methods.env_truthy (env p) "TEST_E2E")
    then <["HASHID_SALT" := randomHex]> (env p)
    else env p.
Proof.
  unfold DbMixin.exports, mbind, ST_bind, mret, ST_ret, getenv, setenv, modify.
  rewrite !truthy_env_value.
  destruct (negb _ && _); cbn [env];
    destruct (DbMixin.select_adapter _ _ _ _ _) as [[opts'|e] p1] eqn:Hsel;
    apply DbMixin_select_adapter_env in Hsel; intros [= _ <-]; by rewrite Hsel.
Qed.

Lemma DbMixin_exports_salt randomHex testing opts p sch p' :
  DbMixin.exports path_resolve path_join randomHex testing opts p = (Return sch, p') →
  salt sch = env p' !! "HASHID_SALT".
Proof.
  unfold DbMixin.exports, mbind, ST_bind, mret, ST_ret, getenv, setenv, modify.
  destruct (negb _ && _); cbn [env];
    destruct (DbMixin.select_adapter _ _ _ _ _) as [[opts'|e] p1] eqn:Hsel;
    apply DbMixin_select_adapter_env in Hsel; intros [= <- <-]; by rewrite Hsel.
Qed.

(** The [db.mixin.js] factory writes one variable at most: in a test
    or end-to-end run without [TOKEN_SALT] it replaces [HASHID_SALT],
    set or not, by fresh random hex; otherwise the environment is left
    as it was. The codec is built from the salt after that write. *)
Lemma DbMixin_exports_effects randomHex testing opts p r p' :
  DbMixin.exports path_resolve path_join randomHex testing opts p = (r, p') →
  env p'
  = (if negb (Methods.env_truthy (env p) "TOKEN_SALT")
        && (testing || Methods.env_truthy (env p) "TEST_E2E")
     then <["HASHID_SALT" := randomHex]> (env p)
     else env p)
  ∧ (∀ sch, r = Return sch → salt sch = env p' !! "HASHID_SALT").
Proof.
  intros Hexports. split.
  - by apply (DbMixin_exports_env randomHex testing opts p r).
  - intros sch ->. by apply (DbMixin_exports_salt randomHex testing opts p).
Qed.

(** The table [part_000] exports as [ACTIONS] is the action table of
    its schema with every permission list emptied. *)
Lemma exported_ACTIONS opts p sch p' :
  Part000.exports path_resolve path_join opts p = (Return sch, p') →
  without_permissions (actions sch) = Part000.ACTIONS
  ∧ exposed Part000.ACTIONS
    = map (λ name, (name, []))
        ["create"; "list"; "find"; "count"; "get"; "update"; "remove"].
Proof.
  unfold Part000.exports, mbind at 1, ST_bind at 1, getenv.
  unfold mbind, ST_bind.
  destruct (Part000.select_adapter path_resolve path_join opts p)
    as [[opts'|e] p1]; [|done].
  by intros [= <- <-].
Qed.

(** Where the two files agree. Outside the test and generate mode and
    with no [NEDB_FOLDER], the adapter block of [db.mixin.js] does to
    any options, in any process, exactly what the one of [part_000]
    does: same result or same error, same directories. *)
Lemma factories_agree testing opts p :
  generate_mode testing (env p) = false →
  Methods.env_truthy (env p) "NEDB_FOLDER" = false →
  DbMixin.select_adapter path_resolve path_join testing opts p
  = Part000.select_adapter path_resolve path_join opts p.
Proof.
  intros Hmode Hfolder. rewrite DbMixin_mode, Hmode.
  assert (nedb_folder (env p) opts = prop "nedb" opts) as ->.
  { unfold nedb_folder. unfold Methods.env_truthy in Hfolder.
    destruct (env p !! "NEDB_FOLDER") as [d|]; [|done].
    by destruct (String.eqb d ""). }
  unfold Part000.select_adapter, mbind, ST_bind, getenv.
  by destruct (truthy (prop "nedb" opts)).
Qed.

End Keeping.

(** The accounts service on disk, configured through either file. *)
Lemma factories_agree_witness :
  DbMixin.select_adapter sample_resolve sample_join false accounts_on_disk sample_process
  = Part000.select_adapter sample_resolve sample_join accounts_on_disk sample_process.
Proof.
  apply (factories_agree sample_resolve sample_join false accounts_on_disk
           sample_process); reflexivity.
Defined.

(** The accounts service on disk keeps its permission prefix. *)
Lemma options_are_kept_witness :
  ∃ opts' p',
    Part000.select_adapter sample_resolve sample_join accounts_on_disk sample_process
    = (Return opts', p')
    ∧ prop "permissions" opts' = JStr "accounts".
Proof.
  eexists _, _. split; [reflexivity|].
  eapply (proj1 (options_are_kept sample_resolve sample_join false accounts_on_disk
                  sample_process _ _ "permissions" ltac:(done))).
  reflexivity.
Defined.

(** With the adapter named ["NeDB"] by the caller, the directory option
    changes nothing: the options come back as they went in. *)
Lemma preset_adapter_wins_witness :
  ∃ opts' p',
    DbMixin.select_adapter sample_resolve sample_join false accounts_bare_adapter
      sample_process
    = (Return opts', p')
    ∧ opts' = accounts_bare_adapter.
Proof.
  eexists _, _. split; [reflexivity|].
  eapply (proj1 (preset_adapter_wins sample_resolve sample_join false
                  accounts_bare_adapter sample_process _ _ (or_intror eq_refl))
           (JStr "NeDB")); done.
Defined.

(** The accounts service on disk, configured twice. *)
Lemma select_adapter_idempotent_witness :
  ∃ opts' p',
    Part000.select_adapter sample_resolve sample_join accounts_on_disk sample_process
    = (Return opts', p')
    ∧ Part000.select_adapter sample_resolve sample_join opts' p' = (Return opts', p').
Proof.
  eexists _, _. split; [reflexivity|].
  eapply (proj1 (select_adapter_idempotent sample_resolve sample_join false
                  accounts_on_disk sample_process _ _ eq_refl)).
  reflexivity.
Defined.

Lemma Part000_exports_effects_witness :
  ∃ r p',
    Part000.exports sample_resolve sample_join accounts_on_disk sample_process = (r, p')
    ∧ env p' = env sample_process
    ∧ dirs sample_process ⊆ dirs p'
    ∧ (truthy (prop "nedb" accounts_on_disk) = false → dirs p' = dirs sample_process)
    ∧ (∀ sch, r = Return sch → truthy (prop "nedb" accounts_on_disk) = true →
         ∃ d, prop "nedb" accounts_on_disk = JStr d ∧ sample_resolve d ∈ dirs p')
    ∧ (∀ sch, r = Return sch → salt sch = env sample_process !! "HASHID_SALT").
Proof.
  eexists _, _. split; [reflexivity|].
  apply (Part000_exports_effects sample_resolve sample_join accounts_on_disk
           sample_process).
  reflexivity.
Defined.

(** A test run with an empty environment: the salt is written. *)
Lemma DbMixin_exports_effects_witness :
  ∃ r p',
    DbMixin.exports sample_resolve sample_join "5f1c" true accounts_on_mongo
      sample_process = (r, p')
    ∧ env p'
      = (if negb (Methods.env_truthy (env sample_process) "TOKEN_SALT")
            && (true || Methods.env_truthy (env sample_process) "TEST_E2E")
         then <["HASHID_SALT" := "5f1c"]> (env sample_process)
         else env sample_process)
    ∧ (∀ sch, r = Return sch → salt sch = env p' !! "HASHID_SALT").
Proof.
  eexists _, _. split; [reflexivity|].
  apply (DbMixin_exports_effects sample_resolve sample_join "5f1c" true
           accounts_on_mongo sample_process).
  reflexivity.
Defined.

Lemma exported_ACTIONS_witness :
  ∃ sch p',
    Part000.exports sample_resolve sample_join accounts_on_mongo sample_process
    = (Return sch, p')
    ∧ without_permissions (actions sch) = Part000.ACTIONS
    ∧ exposed Part000.ACTIONS
      = map (λ name, (name, []))
          ["create"; "list"; "find"; "count"; "get"; "update"; "remove"].
Proof.
  eexists _, _. split; [reflexivity|].
  eapply (exported_ACTIONS sample_resolve sample_join accounts_on_mongo sample_process).
  reflexivity.
Defined.

End FactoryFacts.

(** ** The lifecycle hooks *)
Module HookFacts.

Import Methods Service Samples Notions.

(** C6. With [HASHID_SALT] unset the [created] hook ends in the
    broker's fatal error; with the variable set to a salt (a non-empty
    string) it completes. *)
Theorem created_needs_salt env :
  (env !! "HASHID_SALT" = None →
   created env = Fatal "Environment variable 'HASHID_SALT' must be configured!")
  ∧ (∀ salt, env !! "HASHID_SALT" = Some salt → salt ≠ "" →
     created env = Completed).
Proof.
  unfold created, env_truthy. split.
  - by intros ->.
  - intros salt -> Hsalt. by destruct (String.eqb_spec salt "").
Qed.

Lemma created_needs_salt_witness :
  created ∅ = Fatal "Environment variable 'HASHID_SALT' must be configured!"
  ∧ created {[ "HASHID_SALT" := "s3cret" ]} = Completed.
Proof.
  split.
  - exact (proj1 (created_needs_salt ∅) eq_refl).
  - exact (proj2 (created_needs_salt {[ "HASHID_SALT" := "s3cret" ]}) "s3cret"
             eq_refl ltac:(done)).
Defined.

(** A salt that is set but empty is treated as missing. *)
Lemma created_empty_salt env :
  env !! "HASHID_SALT" = Some "" →
  created env = Fatal "Environment variable 'HASHID_SALT' must be configured!".
Proof. unfold created, env_truthy. by intros ->. Qed.

(** In test mode without [TOKEN_SALT] the [db.mixin.js] factory sets
    [HASHID_SALT] itself, so [created] completes afterwards. *)
Lemma DbMixin_exports_sets_salt path_resolve path_join randomHex opts p r p' :
  Config.env p !! "TOKEN_SALT" = None →
  randomHex ≠ "" →
  DbMixin.exports path_resolve path_join randomHex true opts p = (r, p') →
  created (Config.env p') = Completed.
Proof.
  intros Htoken Hrandom.
  unfold DbMixin.exports, mbind, ST_bind, Config.getenv, Config.setenv, modify.
  rewrite Htoken. cbn [Config.env_value Config.truthy negb andb orb Config.env].
  destruct (DbMixin.select_adapter _ _ _ _ _) as [[opts'|e] p1] eqn:Hsel;
    intros [= _ <-];
    apply FactoryFacts.DbMixin_select_adapter_env in Hsel; rewrite Hsel;
    cbn [Config.env]; unfold created, env_truthy;
    rewrite lookup_insert_eq; by destruct (String.eqb_spec randomHex "").
Qed.

Lemma created_empty_salt_witness :
  created {[ "HASHID_SALT" := "" ]}
  = Fatal "Environment variable 'HASHID_SALT' must be configured!".
Proof. apply created_empty_salt. reflexivity. Defined.

(** The accounts service built under [NODE_ENV=test] in a process with
    an empty environment. *)
Lemma DbMixin_exports_sets_salt_witness :
  created (Config.env (snd (DbMixin.exports sample_resolve sample_join "5f1c" true
                              accounts_on_mongo sample_process)))
  = Completed.
Proof.
  apply (DbMixin_exports_sets_salt sample_resolve sample_join "5f1c"
           accounts_on_mongo sample_process
           (fst (DbMixin.exports sample_resolve sample_join "5f1c" true
                   accounts_on_mongo sample_process))
           (snd (DbMixin.exports sample_resolve sample_join "5f1c" true
                   accounts_on_mongo sample_process)));
    reflexivity || done.
Defined.

Section Seeding.

Variable store : Type.
Variable this : service store.
Variable collection : Config.json.

Lemma seeded_app (d d' : store) (t events : list event) :
  seeded (State d' (t ++ events))
  = (seeded (State d t) + length (filter (λ e, e = SeedDB) events))%nat.
Proof. unfold seeded. cbn [trace]. by rewrite filter_app, length_app. Qed.

Lemma seeded_same (d d' : store) (t : list event) :
  seeded (State d' t) = seeded (State d t).
Proof. reflexivity. Qed.

(** The index step of either hook always completes, invokes no seed,
    and hands on a collection with the same count. *)
Lemma index_step_frame (guarded : bool) s :
  indexes_keep_count this →
  ∃ d1 events,
    (if guarded
     then if isFunction (createIndexes this)
          then try_catch (invoke_opt CreateIndexes "createIndexes" (createIndexes this))
                 (λ err, log (LogError "Unable to create indexes."))
          else mret ()
     else try_catch (invoke_opt CreateIndexes "createIndexes" (createIndexes this))
            (λ err, log (LogError "Unable to create indexes."))) s
    = (Return (), State d1 (trace s ++ events))
    ∧ filter (λ e, e = SeedDB) events = []
    ∧ countEntities this d1 = countEntities this (db s).
Proof.
  intros Hframe. destruct s as [d t].
  unfold try_catch, invoke_opt, invoke, log, modify, throw, isFunction.
  destruct (createIndexes this) as [create|] eqn:Hcreate.
  - assert (∃ r d1, create d = (r, d1)) as (r & d1 & Hrun)
      by (destruct (create d); eauto).
    pose proof (Hframe create d r d1 Hcreate Hrun) as Hcount.
    destruct guarded; cbn [db trace]; rewrite Hrun; destruct r as [[]|e].
    + by exists d1, [CreateIndexes].
    + exists d1, [CreateIndexes; LogError "Unable to create indexes."].
      cbn [db trace]. by rewrite <-app_assoc.
    + by exists d1, [CreateIndexes].
    + exists d1, [CreateIndexes; LogError "Unable to create indexes."].
      cbn [db trace]. by rewrite <-app_assoc.
  - destruct guarded; cbn [db trace].
    + exists d, []. by rewrite app_nil_r.
    + by exists d, [LogError "Unable to create indexes."].
Qed.

Lemma seeded_events (s : state store) (d' : store) events :
  seeded (State d' (trace s ++ events))
  = (seeded s + length (filter (λ e, e = SeedDB) events))%nat.
Proof. destruct s as [d t]. apply seeded_app. Qed.

(** Count the seed events a hook added to the trace. *)
Ltac count_seeds Hnoseed :=
  rewrite <-?app_assoc, seeded_events, ?filter_app, Hnoseed;
  cbn; repeat case_decide; try done; cbn; lia.

(** What follows the index step in [part_000]: from a collection [d1]
    and a trace, the seed is invoked once when it is a function and
    the count is zero, and not at all otherwise. *)
Lemma Part000_seed_step (s : state store) (d1 : store) events :
  filter (λ e, e = SeedDB) events = [] →
  seeded (snd ((if isFunction (seedDB this) then
                  count ← invoke CountEntities (reading (countEntities this));
                  if (count =? 0)%Z then
                    _ ← log (LogInfo ("Seed '" +:+ Config.to_string collection
                                        +:+ "' collection..."));
                    invoke_opt SeedDB "seedDB" (seedDB this)
                  else mret ()
                else mret ()) (State d1 (trace s ++ events))))
  = (seeded s + if isFunction (seedDB this) && counts_zero this d1 then 1 else 0)%nat.
Proof.
  intros Hnoseed. unfold counts_zero.
  destruct (seedDB this) as [seed|]; cbn [isFunction andb].
  - unfold mbind, ST_bind, mret, ST_ret, invoke_opt, invoke, reading, log, modify.
    cbn [db trace].
    destruct (countEntities this d1) as [count|e]; cbn [snd].
    + destruct (count =? 0)%Z; cbn [snd db trace].
      * destruct (seed d1) as [r d2]. cbn [snd].
        count_seeds Hnoseed.
      * count_seeds Hnoseed.
    + count_seeds Hnoseed.
  - unfold mret, ST_ret. cbn [snd]. count_seeds Hnoseed.
Qed.

(** What one start of [part_000] adds to the count of seed
    invocations. *)
Lemma Part000_started_seeds s :
  indexes_keep_count this →
  seeded (snd (Part000.started store this collection s))
  = (seeded s + if isFunction (seedDB this) && counts_zero this (db s) then 1 else 0)%nat.
Proof.
  intros Hframe.
  destruct (index_step_frame true s Hframe) as (d1 & events & Hstep & Hnoseed & Hcount).
  cbn iota in Hstep.
  unfold Part000.started, mbind at 1, ST_bind at 1. rewrite Hstep.
  rewrite (Part000_seed_step s d1 events Hnoseed).
  unfold counts_zero. by rewrite Hcount.
Qed.

(** The same for [db.mixin.js] when the collection is not cleared. *)
Lemma DbMixin_started_seeds testing env s :
  indexes_keep_count this →
  env_truthy env "TEST_E2E" || env_truthy env "TEST_INT" = false →
  seeded (snd (DbMixin.started store this testing env collection s))
  = (seeded s + if isFunction (seedDB this) && counts_zero this (db s) then 1 else 0)%nat.
Proof.
  intros Hframe Hmode.
  assert (∃ d1 events,
            (if negb testing then
               try_catch (invoke_opt CreateIndexes "createIndexes" (createIndexes this))
                 (λ err, log (LogError "Unable to create indexes."))
             else mret ()) s = (Return (), State d1 (trace s ++ events))
            ∧ filter (λ e, e = SeedDB) events = []
            ∧ countEntities this d1 = countEntities this (db s))
    as (d1 & events & Hstep & Hnoseed & Hcount).
  { destruct testing; [|exact (index_step_frame false s Hframe)].
    exists (db s), []. destruct s. by rewrite app_nil_r. }
  unfold DbMixin.started, mbind at 1, ST_bind at 1. rewrite Hstep, Hmode.
  unfold mbind, ST_bind, mret, ST_ret, invoke_opt, invoke, reading, log, modify,
    counts_zero.
  cbn [db trace]. rewrite Hcount.
  destruct (countEntities this (db s)) as [count|e]; cbn [snd].
  - destruct (count =? 0)%Z, (seedDB this) as [seed|]; cbn [isFunction andb snd db trace].
    + destruct (seed d1) as [r d2]. cbn [snd].
      count_seeds Hnoseed.
    + count_seeds Hnoseed.
    + count_seeds Hnoseed.
    + count_seeds Hnoseed.
  - destruct (seedDB this); count_seeds Hnoseed.
Qed.

(** And when it is: the count is taken after the clearing. *)
Lemma DbMixin_started_clears_then_seeds testing env s :
  indexes_keep_count this →
  env_truthy env "TEST_E2E" || env_truthy env "TEST_INT" = true →
  clearing_empties this →
  seeded (snd (DbMixin.started store this testing env collection s))
  = (seeded s + if isFunction (seedDB this) then 1 else 0)%nat.
Proof.
  intros Hframe Hmode Hclear.
  assert (∃ d1 events,
            (if negb testing then
               try_catch (invoke_opt CreateIndexes "createIndexes" (createIndexes this))
                 (λ err, log (LogError "Unable to create indexes."))
             else mret ()) s = (Return (), State d1 (trace s ++ events))
            ∧ filter (λ e, e = SeedDB) events = [])
    as (d1 & events & Hstep & Hnoseed).
  { destruct testing.
    - exists (db s), []. destruct s. by rewrite app_nil_r.
    - destruct (index_step_frame false s Hframe) as (d1 & events & ? & ? & _).
      by exists d1, events. }
  destruct (Hclear d1) as (d2 & Hcleared & Hzero).
  unfold DbMixin.started, mbind at 1, ST_bind at 1. rewrite Hstep, Hmode.
  unfold mbind, ST_bind, mret, ST_ret, invoke_opt, invoke, reading, log, modify.
  cbn [db trace]. rewrite Hcleared. cbn [db trace].
  unfold counts_zero in Hzero.
  destruct (countEntities this d2) as [count|e]; [|done].
  rewrite Hzero.
  destruct (seedDB this) as [seed|]; cbn [isFunction andb snd db trace].
  - destruct (seed d2) as [r d3]. cbn [snd].
    count_seeds Hnoseed.
  - count_seeds Hnoseed.
Qed.

(** C8, amended. Index creation leaving the count alone: in
    [part_000], and in [db.mixin.js] when neither [TEST_E2E] nor
    [TEST_INT] is set, a start invokes the seed function exactly once
    when it is a function and the collection counts zero, and not at
    all otherwise, so never on a collection that is not empty. In
    [db.mixin.js] with [TEST_E2E] or [TEST_INT] set the collection is
    cleared before it is counted, and every start invokes the seed
    function when there is one. *)
Theorem seeding_on_start testing env s :
  indexes_keep_count this →
  seeded (snd (Part000.started store this collection s))
  = (seeded s + if isFunction (seedDB this) && counts_zero this (db s) then 1 else 0)%nat
  ∧ (env_truthy env "TEST_E2E" || env_truthy env "TEST_INT" = false →
     seeded (snd (DbMixin.started store this testing env collection s))
     = (seeded s + if isFunction (seedDB this) && counts_zero this (db s) then 1 else 0)%nat)
  ∧ (env_truthy env "TEST_E2E" || env_truthy env "TEST_INT" = true →
     clearing_empties this →
     seeded (snd (DbMixin.started store this testing env collection s))
     = (seeded s + if isFunction (seedDB this) then 1 else 0)%nat).
Proof.
  intros Hframe. split; [|split].
  - by apply Part000_started_seeds.
  - intros Hmode. by apply DbMixin_started_seeds.
  - intros Hmode Hclear. by apply DbMixin_started_clears_then_seeds.
Qed.

(** A start of [part_000] against a collection that is not empty
    invokes no seed. *)
Lemma Part000_non_empty_not_seeded s :
  indexes_keep_count this →
  counts_zero this (db s) = false →
  seeded (snd (Part000.started store this collection s)) = seeded s.
Proof.
  intros Hframe Hcount.
  rewrite (Part000_started_seeds s Hframe).
  rewrite Hcount, andb_false_r. lia.
Qed.

(** If the collection still counts zero after a start of [part_000],
    no seed function was run by it. *)
Lemma Part000_still_empty s :
  indexes_keep_count this →
  seed_fills this →
  counts_zero this (db (snd (Part000.started store this collection s))) = true →
  isFunction (seedDB this) && counts_zero this (db s) = false.
Proof.
  intros Hframe Hfills.
  destruct (index_step_frame true s Hframe) as (d1 & events & Hstep & _ & Hcount).
  cbn iota in Hstep.
  unfold Part000.started, mbind at 1, ST_bind at 1. rewrite Hstep.
  unfold counts_zero at 2. rewrite <-Hcount.
  destruct (seedDB this) as [seed|] eqn:Hseed; cbn [isFunction andb]; [|done].
  unfold mbind, ST_bind, mret, ST_ret, invoke_opt, invoke, reading, log, modify.
  cbn [db trace].
  destruct (countEntities this d1) as [count|e]; [|done].
  destruct (count =? 0)%Z; [|done].
  cbn [db trace]. destruct (seed d1) as [r d2] eqn:Hrun. cbn [snd db].
  by rewrite (Hfills seed d1 r d2 Hseed Hrun).
Qed.

(** Seeding runs at most once over two starts of [part_000], when the
    seed function fills the collection. *)
Lemma Part000_seeds_at_most_once s :
  indexes_keep_count this →
  seed_fills this →
  (seeded (snd (Part000.started store this collection
                  (snd (Part000.started store this collection s))))
   ≤ seeded s + 1)%nat.
Proof.
  intros Hframe Hfills.
  rewrite (Part000_started_seeds _ Hframe), (Part000_started_seeds s Hframe).
  destruct (counts_zero this (db (snd (Part000.started store this collection s))))
    eqn:Hafter.
  - rewrite (Part000_still_empty s Hframe Hfills Hafter).
    destruct (isFunction (seedDB this)); cbn; lia.
  - rewrite andb_false_r. destruct (_ && _); lia.
Qed.

End Seeding.

Lemma accounts_indexes_keep_count : indexes_keep_count accounts_service.
Proof. intros create d r d' [= <-] [= _ <-]. done. Qed.

Lemma accounts_clearing_empties : clearing_empties accounts_service.
Proof. intros d. by exists []. Qed.

Lemma accounts_seed_fills : seed_fills accounts_service.
Proof.
  intros seed d r d' [= <-] [= _ <-]. unfold counts_zero. cbn.
  rewrite length_app. cbn. apply Z.eqb_neq. lia.
Qed.

(** Two starts of the accounts service on an empty collection. *)
Lemma Part000_seeds_at_most_once_witness :
  (seeded (snd (Part000.started (list string) accounts_service (Config.JStr "accounts")
                  (snd (Part000.started (list string) accounts_service
                          (Config.JStr "accounts") (State [] [])))))
   ≤ 0 + 1)%nat.
Proof.
  exact (Part000_seeds_at_most_once (list string) accounts_service
           (Config.JStr "accounts") (State [] [])
           accounts_indexes_keep_count accounts_seed_fills).
Defined.

(** A first start on an empty collection and a start on a collection
    that holds one account. *)
Lemma seeding_on_start_witness :
  seeded (snd (Part000.started (list string) accounts_service (Config.JStr "accounts")
                 (State [] []))) = 1%nat
  ∧ seeded (snd (Part000.started (list string) accounts_service (Config.JStr "accounts")
                   (State ["existing"] []))) = 0%nat
  ∧ seeded (snd (DbMixin.started (list string) accounts_service false ∅
                   (Config.JStr "accounts") (State ["existing"] []))) = 0%nat.
Proof.
  split; [|split].
  - exact (proj1 (seeding_on_start (list string) accounts_service
                    (Config.JStr "accounts") false ∅ (State [] [])
                    accounts_indexes_keep_count)).
  - exact (proj1 (seeding_on_start (list string) accounts_service
                    (Config.JStr "accounts") false ∅ (State ["existing"] [])
                    accounts_indexes_keep_count)).
  - exact (proj1 (proj2 (seeding_on_start (list string) accounts_service
                           (Config.JStr "accounts") false ∅ (State ["existing"] [])
                           accounts_indexes_keep_count)) eq_refl).
Defined.

(** C8 as stated fails for [db.mixin.js] under [TEST_INT]: a start
    against a collection that holds one account clears it and invokes
    the seed function. *)
Lemma test_mode_reseeds :
  counts_zero accounts_service ["existing"] = false
  ∧ DbMixin.started (list string) accounts_service true {[ "TEST_INT" := "true" ]}
      (Config.JStr "accounts") (State ["existing"] [])
    = (Return (),
       State ["admin"]
         [LogInfo "Clear 'accounts' collection before tests..."; ClearEntities;
          CountEntities; LogInfo "Seed 'accounts' collection..."; SeedDB]).
Proof. split; reflexivity. Qed.

(** *** The salt the factory does not provide *)

(** The [db.mixin.js] factory tests [TOKEN_SALT] before it supplies a
    random [HASHID_SALT], while [created] asks for [HASHID_SALT]: with
    [TOKEN_SALT] set and [HASHID_SALT] missing the factory supplies
    nothing and the hook ends in the fatal error, test run or not. *)
Lemma DbMixin_token_salt_is_no_salt path_resolve path_join randomHex testing opts p r p' :
  env_truthy (Config.env p) "TOKEN_SALT" = true →
  env_truthy (Config.env p) "HASHID_SALT" = false →
  DbMixin.exports path_resolve path_join randomHex testing opts p = (r, p') →
  created (Config.env p')
  = Fatal "Environment variable 'HASHID_SALT' must be configured!".
Proof.
  intros Htoken Hsalt Hexports.
  rewrite (FactoryFacts.DbMixin_exports_env _ _ _ _ _ _ _ _ Hexports), Htoken.
  cbn [negb andb]. unfold created. by rewrite Hsalt.
Qed.

Lemma DbMixin_token_salt_is_no_salt_witness :
  ∃ r p',
    DbMixin.exports sample_resolve sample_join "5f1c" true accounts_on_mongo token_only
    = (r, p')
    ∧ created (Config.env p')
      = Fatal "Environment variable 'HASHID_SALT' must be configured!".
Proof.
  eexists _, _. split; [reflexivity|].
  eapply (DbMixin_token_salt_is_no_salt sample_resolve sample_join "5f1c" true
            accounts_on_mongo token_only _ _ eq_refl eq_refl).
  reflexivity.
Defined.

(** *** Order, failures and restarts *)

(** Unfold a hook and split on what each awaited method does. *)
Ltac hook_unfold :=
  unfold Part000.started, DbMixin.started, mbind, ST_bind, mret, ST_ret, try_catch,
    invoke_opt, invoke, reading, log, modify, throw.

Ltac hook_simpl := cbn [db trace fst snd isFunction andb orb negb].

Ltac hook_cases :=
  repeat (hook_simpl;
          match goal with
          | |- context [match ?m ?d with (_, _) => _ end] =>
              lazymatch type of (m d) with
              | (completion _ * _)%type => destruct (m d) as [[[]|?] ?] eqn:?
              end
          | |- context [match countEntities ?this ?d with _ => _ end] =>
              destruct (countEntities this d) as [?|?] eqn:?
          | |- context [(?c =? 0)%Z] => destruct (c =? 0)%Z eqn:?
          end);
  hook_simpl.

Ltac in_order :=
  cbn; repeat first [apply sublist_nil | apply sublist_skip | apply sublist_cons].

Ltac absent :=
  let Hin := fresh in
  intros Hin; cbn [app] in Hin;
  repeat (apply elem_of_cons in Hin as [?|Hin]; [done|]);
  by apply elem_of_nil in Hin.

Section Failures.

Variable store : Type.
Variable this : service store.
Variable collection : Config.json.

(** Whatever the service methods do, a start invokes each of them at
    most once and in the order [createIndexes], [clearEntities],
    [countEntities], [seedDB]. A start of [part_000] never clears the
    collection; a start of [db.mixin.js] creates no index under
    [NODE_ENV=test] and clears nothing unless [TEST_E2E] or [TEST_INT]
    is set. *)
Lemma started_calls_in_order testing env s :
  (∃ events,
     trace (snd (Part000.started store this collection s)) = trace s ++ events
     ∧ sublist (filter (λ e, is_call e) events) [CreateIndexes; CountEntities; SeedDB])
  ∧ (∃ events,
       trace (snd (DbMixin.started store this testing env collection s))
       = trace s ++ events
       ∧ sublist (filter (λ e, is_call e) events)
           [CreateIndexes; ClearEntities; CountEntities; SeedDB]
       ∧ (testing = true → CreateIndexes ∉ events)
       ∧ (env_truthy env "TEST_E2E" || env_truthy env "TEST_INT" = false →
          ClearEntities ∉ events)).
Proof.
  destruct s as [d t]. split.
  - hook_unfold.
    destruct (createIndexes this) as [create|], (seedDB this) as [seed|];
      hook_cases.
    all: rewrite <-?app_assoc; eexists;
      (split; [first [reflexivity | symmetry; apply app_nil_r]|in_order]).
  - hook_unfold.
    destruct testing, (env_truthy env "TEST_E2E" || env_truthy env "TEST_INT"),
      (createIndexes this) as [create|], (seedDB this) as [seed|];
      hook_cases.
    all: rewrite <-?app_assoc; eexists;
      (split; [first [reflexivity | symmetry; apply app_nil_r]|]).
    all: split; [in_order|].
    all: split; intros ?; try done; absent.
Qed.

(** Index creation cannot make a start fail: whether [createIndexes]
    returns, throws or (in [db.mixin.js]) is not a function at all, the
    start completes as long as clearing, counting and seeding do. *)
Lemma started_completes testing env s :
  count_succeeds this →
  seed_succeeds this →
  clear_succeeds this →
  (∃ s', Part000.started store this collection s = (Return (), s'))
  ∧ (∃ s', DbMixin.started store this testing env collection s = (Return (), s')).
Proof.
  intros Hcount Hseed Hclear. destruct s as [d t].
  assert (∀ d e, countEntities this d ≠ Throw e) as Hcount'.
  { intros d0 e He. destruct (Hcount d0). congruence. }
  assert (∀ seed d e d', seedDB this = Some seed → seed d ≠ (Throw e, d')) as Hseed'.
  { intros seed d0 e d' Hs He. destruct (Hseed seed d0 Hs). congruence. }
  assert (∀ d e d', clearEntities this d ≠ (Throw e, d')) as Hclear'.
  { intros d0 e d' He. destruct (Hclear d0). congruence. }
  split.
  - hook_unfold.
    destruct (createIndexes this) as [create|], (seedDB this) as [seed|] eqn:?;
      hook_cases; try by eexists.
    all: try by (exfalso; eapply Hcount'; eauto).
    all: by (exfalso; eapply Hseed'; eauto).
  - hook_unfold.
    destruct testing, (env_truthy env "TEST_E2E" || env_truthy env "TEST_INT"),
      (createIndexes this) as [create|], (seedDB this) as [seed|] eqn:?;
      hook_cases; try by eexists.
    all: try by (exfalso; eapply Hcount'; eauto).
    all: try by (exfalso; eapply Hclear'; eauto).
    all: by (exfalso; eapply Hseed'; eauto).
Qed.

(** When counting fails, a start of [db.mixin.js] is rejected with the
    error of the count, seed function or not. A start of [part_000] is
    rejected with it only when there is a seed function: without one
    the count is never asked for and the start completes. No seed is
    invoked either way. *)
Lemma started_count_failure testing env s e :
  (∀ d, countEntities this d = Throw e) →
  fst (Part000.started store this collection s)
  = (if isFunction (seedDB this) then Throw e else Return ())
  ∧ (clear_succeeds this →
     fst (DbMixin.started store this testing env collection s) = Throw e)
  ∧ seeded (snd (Part000.started store this collection s)) = seeded s
  ∧ seeded (snd (DbMixin.started store this testing env collection s)) = seeded s.
Proof.
  intros Hcount. destruct s as [d t].
  assert (∀ d n, countEntities this d ≠ Return n) as Hcount'.
  { intros d0 n. by rewrite Hcount. }
  assert (∀ d e', countEntities this d = Throw e' → e' = e) as Hsame.
  { intros d0 e'. rewrite Hcount. by intros [= ->]. }
  repeat split.
  - hook_unfold.
    destruct (createIndexes this) as [create|], (seedDB this) as [seed|];
      hook_cases; try done.
    all: try by (exfalso; eapply Hcount'; eauto).
    all: by (f_equal; eapply Hsame; eauto).
  - intros Hclear.
    assert (∀ d e d', clearEntities this d ≠ (Throw e, d')) as Hclear'.
    { intros d0 e' d' He. destruct (Hclear d0). congruence. }
    hook_unfold.
    destruct testing, (env_truthy env "TEST_E2E" || env_truthy env "TEST_INT"),
      (createIndexes this) as [create|], (seedDB this) as [seed|];
      hook_cases.
    all: try by (exfalso; eapply Hcount'; eauto).
    all: try by (exfalso; eapply Hclear'; eauto).
    all: by (f_equal; eapply Hsame; eauto).
  - hook_unfold.
    destruct (createIndexes this) as [create|], (seedDB this) as [seed|];
      hook_cases.
    all: try by (exfalso; eapply Hcount'; eauto).
    all: unfold seeded; cbn [trace]; rewrite <-?app_assoc, ?filter_app, ?length_app;
      cbn; repeat case_decide; try done; cbn; lia.
  - hook_unfold.
    destruct testing, (env_truthy env "TEST_E2E" || env_truthy env "TEST_INT"),
      (createIndexes this) as [create|], (seedDB this) as [seed|];
      hook_cases.
    all: try by (exfalso; eapply Hcount'; eauto).
    all: unfold seeded; cbn [trace]; rewrite <-?app_assoc, ?filter_app, ?length_app;
      cbn; repeat case_decide; try done; cbn; lia.
Qed.

(** In an end-to-end or integration run of [db.mixin.js] a clearing
    that fails rejects the start with its error before the collection
    is counted or seeded. *)
Lemma DbMixin_clear_failure testing env s e :
  env_truthy env "TEST_E2E" || env_truthy env "TEST_INT" = true →
  (∀ d, ∃ d', clearEntities this d = (Throw e, d')) →
  fst (DbMixin.started store this testing env collection s) = Throw e
  ∧ ∃ events,
      trace (snd (DbMixin.started store this testing env collection s))
      = trace s ++ events
      ∧ (CountEntities ∉ events) ∧ (SeedDB ∉ events).
Proof.
  intros Hmode Hclear. destruct s as [d t].
  assert (∀ d d', clearEntities this d ≠ (Return (), d')) as Hclear'.
  { intros d0 d' He. destruct (Hclear d0). congruence. }
  assert (∀ d e' d', clearEntities this d = (Throw e', d') → e' = e) as Hsame.
  { intros d0 e' d' He. destruct (Hclear d0). congruence. }
  hook_unfold. rewrite Hmode.
  destruct testing, (createIndexes this) as [create|], (seedDB this) as [seed|];
    hook_cases.
  all: try by (exfalso; eapply Hclear'; eauto).
  all: (split; [f_equal; eapply Hsame; eauto|]).
  all: rewrite <-?app_assoc; eexists;
    (split; [first [reflexivity | symmetry; apply app_nil_r]|]).
  all: split; absent.
Qed.


(** What a start leaves of the collection, as far as the count shows. *)
Lemma Part000_started_count s :
  indexes_keep_count this →
  seed_fills this →
  counts_zero this (db (snd (Part000.started store this collection s)))
  = counts_zero this (db s) && negb (isFunction (seedDB this)).
Proof.
  intros Hframe Hfills. destruct s as [d t].
  hook_unfold.
  destruct (createIndexes this) as [create|] eqn:Hcreate,
    (seedDB this) as [seed|] eqn:Hseed; hook_cases.
  all: repeat match goal with
         | Hc : createIndexes this = Some ?c, H : ?c ?d = (_, ?d') |- _ =>
             pose proof (Hframe c d _ d' Hc H); clear H
         | Hs : seedDB this = Some ?f, H : ?f ?d = (_, ?d') |- _ =>
             pose proof (Hfills f d _ d' Hs H); clear H
         end.
  all: unfold counts_zero in *.
  all: repeat match goal with
         | H : countEntities this ?d = _ |- _ => rewrite H in *; clear H
         end.
  all: repeat match goal with
         | |- context [match countEntities this ?d with _ => _ end] =>
             destruct (countEntities this d)
         end.
  all: rewrite ?andb_true_r, ?andb_false_r; congruence.
Qed.

(** The same for [db.mixin.js] when the collection is not cleared. *)
Lemma DbMixin_started_count testing env s :
  indexes_keep_count this →
  seed_fills this →
  env_truthy env "TEST_E2E" || env_truthy env "TEST_INT" = false →
  counts_zero this (db (snd (DbMixin.started store this testing env collection s)))
  = counts_zero this (db s) && negb (isFunction (seedDB this)).
Proof.
  intros Hframe Hfills Hmode. destruct s as [d t].
  hook_unfold. rewrite Hmode.
  destruct testing, (createIndexes this) as [create|] eqn:Hcreate,
    (seedDB this) as [seed|] eqn:Hseed; hook_cases.
  all: repeat match goal with
         | Hc : createIndexes this = Some ?c, H : ?c ?d = (_, ?d') |- _ =>
             pose proof (Hframe c d _ d' Hc H); clear H
         | Hs : seedDB this = Some ?f, H : ?f ?d = (_, ?d') |- _ =>
             pose proof (Hfills f d _ d' Hs H); clear H
         end.
  all: unfold counts_zero in *.
  all: repeat match goal with
         | H : countEntities this ?d = _ |- _ => rewrite H in *; clear H
         end.
  all: repeat match goal with
         | |- context [match countEntities this ?d with _ => _ end] =>
             destruct (countEntities this d)
         end.
  all: rewrite ?andb_true_r, ?andb_false_r; congruence.
Qed.

(** A hook that seeds when there is a seed function and the collection
    counts zero, and leaves a collection that counts zero only if it
    did before and there is no seed function, seeds once over any
    number of starts. *)
Lemma starts_seed_once (start : ST (state store) ()) n s :
  (∀ s, seeded (snd (start s))
        = (seeded s
           + if isFunction (seedDB this) && counts_zero this (db s) then 1 else 0)%nat) →
  (∀ s, counts_zero this (db (snd (start s)))
        = counts_zero this (db s) && negb (isFunction (seedDB this))) →
  seeded (starts start n s)
  = (seeded s
     + if (0 <? n)%nat && isFunction (seedDB this) && counts_zero this (db s)
       then 1 else 0)%nat.
Proof.
  intros Hseeds Hcount. unfold starts. revert s.
  induction n as [|n IH]; intros s; [cbn; lia|].
  rewrite Nat.iter_succ_r, IH, Hseeds, Hcount.
  destruct n, (isFunction (seedDB this)), (counts_zero this (db s)); cbn; lia.
Qed.

(** Over any number of starts one after the other, of [part_000] or
    of [db.mixin.js] outside the end-to-end and integration runs, the
    seed function is invoked once in all when there is at least one
    start, there is a seed function and the collection counted zero at
    first, and never otherwise: index creation keeping the count and
    the seed function filling the collection. *)
Lemma seeds_once_over_restarts testing env n s :
  indexes_keep_count this →
  seed_fills this →
  seeded (starts (Part000.started store this collection) n s)
  = (seeded s
     + if (0 <? n)%nat && isFunction (seedDB this) && counts_zero this (db s)
       then 1 else 0)%nat
  ∧ (env_truthy env "TEST_E2E" || env_truthy env "TEST_INT" = false →
     seeded (starts (DbMixin.started store this testing env collection) n s)
     = (seeded s
        + if (0 <? n)%nat && isFunction (seedDB this) && counts_zero this (db s)
          then 1 else 0)%nat).
Proof.
  intros Hframe Hfills. split.
  - apply starts_seed_once.
    + intros s0. by apply Part000_started_seeds.
    + intros s0. by apply Part000_started_count.
  - intros Hmode. apply starts_seed_once.
    + intros s0. by apply DbMixin_started_seeds.
    + intros s0. by apply DbMixin_started_count.
Qed.

(** Where the two files agree. For a service that has both an index
    and a seed function, outside [NODE_ENV=test] and the end-to-end and
    integration runs, a start of [db.mixin.js] is a start of
    [part_000]: same outcome, same collection, same log. *)
Lemma hooks_agree env s :
  isFunction (createIndexes this) = true →
  isFunction (seedDB this) = true →
  env_truthy env "TEST_E2E" || env_truthy env "TEST_INT" = false →
  DbMixin.started store this false env collection s
  = Part000.started store this collection s.
Proof.
  intros Hindex Hseed Hmode. destruct s as [d t].
  unfold DbMixin.started, Part000.started. rewrite Hindex, Hseed, Hmode.
  cbn [negb]. unfold mbind, ST_bind, mret, ST_ret.
  destruct (try_catch _ _ _) as [[[]|e] s1]; [|done].
  destruct (invoke CountEntities _ s1) as [[count|e] s2]; [|done].
  by rewrite andb_true_r.
Qed.

End Failures.

(** A first start of the accounts service through either file. *)
Lemma hooks_agree_witness :
  DbMixin.started (list string) accounts_service false ∅ (Config.JStr "accounts")
    (State [] [])
  = Part000.started (list string) accounts_service (Config.JStr "accounts")
      (State [] []).
Proof.
  apply (hooks_agree (list string) accounts_service (Config.JStr "accounts") ∅
           (State [] [])); reflexivity.
Defined.

Lemma accounts_without_indexes_count : count_succeeds accounts_without_indexes.
Proof. intros d. by eexists. Qed.

Lemma accounts_without_indexes_seed : seed_succeeds accounts_without_indexes.
Proof. intros seed d [= <-]. by eexists. Qed.

Lemma accounts_without_indexes_clear : clear_succeeds accounts_without_indexes.
Proof. intros d. by eexists. Qed.

(** A first start on a store that refuses to build indexes. *)
Lemma started_completes_witness :
  (∃ s', Part000.started (list string) accounts_without_indexes
           (Config.JStr "accounts") (State [] []) = (Return (), s'))
  ∧ (∃ s', DbMixin.started (list string) accounts_without_indexes false ∅
             (Config.JStr "accounts") (State [] []) = (Return (), s')).
Proof.
  exact (started_completes (list string) accounts_without_indexes
           (Config.JStr "accounts") false ∅ (State [] [])
           accounts_without_indexes_count accounts_without_indexes_seed
           accounts_without_indexes_clear).
Defined.

(** A start while the store is away. *)
Lemma started_count_failure_witness :
  fst (Part000.started (list string) accounts_offline (Config.JStr "accounts")
         (State [] []))
  = Throw (Builtin "MongoError" "connection lost")
  ∧ seeded (snd (Part000.started (list string) accounts_offline
                   (Config.JStr "accounts") (State [] []))) = 0%nat
  ∧ seeded (snd (DbMixin.started (list string) accounts_offline false ∅
                   (Config.JStr "accounts") (State [] []))) = 0%nat.
Proof.
  pose proof (started_count_failure (list string) accounts_offline
                (Config.JStr "accounts") false ∅ (State [] [])
                (Builtin "MongoError" "connection lost") (λ d, eq_refl))
    as (Hfirst & _ & Hpart & Hmixin).
  by repeat split.
Defined.

(** An integration run while the store is away. *)
Lemma DbMixin_clear_failure_witness :
  fst (DbMixin.started (list string) accounts_offline true {[ "TEST_INT" := "true" ]}
         (Config.JStr "accounts") (State ["existing"] []))
  = Throw (Builtin "MongoError" "connection lost")
  ∧ ∃ events,
      trace (snd (DbMixin.started (list string) accounts_offline true
                    {[ "TEST_INT" := "true" ]} (Config.JStr "accounts")
                    (State ["existing"] [])))
      = [] ++ events
      ∧ (CountEntities ∉ events) ∧ (SeedDB ∉ events).
Proof.
  apply (DbMixin_clear_failure (list string) accounts_offline (Config.JStr "accounts")
           true {[ "TEST_INT" := "true" ]} (State ["existing"] [])
           (Builtin "MongoError" "connection lost")).
  - reflexivity.
  - intros d. by exists d.
Defined.

(** Three starts of the accounts service on an empty collection. *)
Lemma seeds_once_over_restarts_witness :
  seeded (starts (Part000.started (list string) accounts_service
                    (Config.JStr "accounts")) 3 (State [] [])) = 1%nat
  ∧ seeded (starts (DbMixin.started (list string) accounts_service false ∅
                      (Config.JStr "accounts")) 3 (State [] [])) = 1%nat.
Proof.
  pose proof (seeds_once_over_restarts (list string) accounts_service
                (Config.JStr "accounts") false ∅ 3 (State [] [])
                accounts_indexes_keep_count accounts_seed_fills) as [Hpart Hmixin].
  split; [exact Hpart|exact (Hmixin eq_refl)].
Defined.

End HookFacts.

(** ** The entity settings *)
Module SettingsFacts.

Import Settings.

(** The settings [db.mixin.js] declares inline are the tables
    [part_000] exports, entry by entry, and they are consistent: the
    default scope is a declared scope and filters on a declared field. *)
Lemma settings_agree :
  fields DbMixin_settings = FIELDS
  ∧ scopes DbMixin_settings = SCOPE
  ∧ defaultScopes DbMixin_settings = DSCOPE
  ∧ consistent DbMixin_settings = true.
Proof. repeat split; by vm_compute. Qed.

End SettingsFacts.
